(** * Shell environment bootstrap: [loadShellEnv] and [loadDotEnv]

    A shallow embedding of the two loaders of the Electron main process
    (shell-env.ts): the login-shell environment import with its PATH
    fallback, and the development-mode [.env] reader.

    - JavaScript strings are [string]s whose characters are the code units
      below 256. [process.env] is a [gmap string string], the variables
      that are set. A read by name ([getenv]) is a lookup, [None] standing
      for [undefined]; a read at a key computed at run time ([getprop])
      also sees the members [process.env] inherits from
      [Object.prototype]. The environment holds C strings: a name or a
      value of the table stands for what the environment holds as long
      as it has no NUL character, and the statements about names and
      values taken from a [.env] file say so.
    - The process state threaded through both loaders is the environment
      table together with the records handed to [mainLog].
    - Exceptions are explicit: a computation ends in [Normal] or [Throw],
      and [try_catch] is the only place where a [Throw] is absorbed.
    - What the operating system answers (platform, child process, working
      directory, file system) is a [World] the loaders are run in. *)

From Stdlib Require Import Ascii ZArith Lia.
From stdpp Require Import base option list strings gmap pretty.

(** ** JavaScript string and array primitives used by the loaders *)

Module JS.

Local Open Scope Z_scope.

(** A value of type [string | undefined]. *)
Abbreviation value := (option string).

(** Truthiness: [undefined] and the empty string are falsy. *)
Definition truthy (v : value) : bool :=
  match v with
  | Some (String _ _) => true
  | _ => false
  end.

(** [v || d] for a string default [d]. *)
Definition or_else (v : value) (d : string) : string :=
  match v with
  | Some s => if truthy v then s else d
  | None => d
  end.

(** [`${v}`] in a template literal. *)
Definition template (v : value) : string :=
  match v with
  | Some s => s
  | None => "undefined"
  end.

Fixpoint take (n : nat) (s : string) : string :=
  match n, s with
  | S n', String c s' => String c (take n' s')
  | _, _ => ""
  end.

Fixpoint drop (n : nat) (s : string) : string :=
  match n, s with
  | S n', String _ s' => drop n' s'
  | _, _ => s
  end.

Definition len (s : string) : Z := Z.of_nat (String.length s).

(** [s.startsWith(p)] *)
Fixpoint startsWith (s p : string) {struct p} : bool :=
  match p with
  | "" => true
  | String a p' =>
      match s with
      | "" => false
      | String b s' => if Ascii.eqb a b then startsWith s' p' else false
      end
  end.

(** [s.endsWith(p)] *)
Definition endsWith (s p : string) : bool :=
  startsWith (String.rev s) (String.rev p).

(** [s.indexOf(p)]: position of the first occurrence, [-1] without one. *)
Fixpoint indexOf_from (s p : string) (i : Z) : Z :=
  if startsWith s p then i
  else match s with
       | "" => -1
       | String _ s' => indexOf_from s' p (i + 1)
       end.

Definition indexOf (s p : string) : Z := indexOf_from s p 0.

(** [s.substring(a, b)]: both ends clamped to the string, swapped when
    out of order. *)
Definition clamp (n x : Z) : Z := Z.max 0 (Z.min x n).

Definition substring (s : string) (a b : Z) : string :=
  let a' := clamp (len s) a in
  let b' := clamp (len s) b in
  let lo := Z.min a' b' in
  let hi := Z.max a' b' in
  take (Z.to_nat (hi - lo)) (drop (Z.to_nat lo) s).

(** [s.substring(a)] *)
Definition substring_from (s : string) (a : Z) : string :=
  substring s a (len s).

(** [s.slice(a, b)]: a negative index counts from the end. *)
Definition rel_index (n x : Z) : Z :=
  if x <? 0 then Z.max (n + x) 0 else Z.min x n.

Definition slice (s : string) (a b : Z) : string :=
  let from := rel_index (len s) a in
  let to := rel_index (len s) b in
  take (Z.to_nat (Z.max (to - from) 0)) (drop (Z.to_nat from) s).

(** White space removed by [trim], among the code units below 256:
    TAB, LF, VT, FF, CR, SPACE and NBSP. *)
Definition is_white (c : ascii) : bool :=
  match c with
  | "009" | "010" | "011" | "012" | "013" | " " | "160" => true
  | _ => false
  end%char.

Fixpoint trimStart (s : string) : string :=
  match s with
  | "" => ""
  | String c s' => if is_white c then trimStart s' else s
  end.

(** [s.trim()] *)
Definition trim (s : string) : string :=
  String.rev (trimStart (String.rev (trimStart s))).

(** [s.split(sep)] for a non-empty separator: the pieces between the
    occurrences of [sep] found from left to right without overlap.
    [skip] counts the characters of a separator still to be passed over,
    [cur] is the current piece, reversed. *)
Fixpoint split_go (sep : string) (skip : nat) (cur s : string) : list string :=
  match s with
  | "" => [String.rev cur]
  | String c s' =>
      match skip with
      | S k => split_go sep k cur s'
      | O =>
          if startsWith s sep
          then String.rev cur :: split_go sep (String.length sep - 1)%nat "" s'
          else split_go sep 0 (String c cur) s'
      end
  end.

Definition split (s sep : string) : list string := split_go sep 0 "" s.

(** [arr.join(sep)] *)
Fixpoint join (sep : string) (arr : list string) : string :=
  match arr with
  | [] => ""
  | [x] => x
  | x :: rest => x +:+ sep +:+ join sep rest
  end.

(** [arr.indexOf(x)] *)
Fixpoint arr_indexOf_from (arr : list string) (x : string) (i : Z) : Z :=
  match arr with
  | [] => -1
  | y :: rest => if String.eqb y x then i else arr_indexOf_from rest x (i + 1)
  end.

Definition arr_indexOf (arr : list string) (x : string) : Z :=
  arr_indexOf_from arr x 0.

(** [arr.filter((p, i, arr) => f(p, i, arr))] *)
Fixpoint filter_from (f : string → Z → list string → bool)
    (arr rest : list string) (i : Z) : list string :=
  match rest with
  | [] => []
  | p :: rest' =>
      if f p i arr then p :: filter_from f arr rest' (i + 1)
      else filter_from f arr rest' (i + 1)
  end.

Definition filter_indexed (f : string → Z → list string → bool)
    (arr : list string) : list string :=
  filter_from f arr arr 0.

(** The names every object inherits from [Object.prototype]. *)
Definition Object_prototype : list string :=
  [ "constructor";
    "__defineGetter__";
    "__defineSetter__";
    "hasOwnProperty";
    "__lookupGetter__";
    "__lookupSetter__";
    "isPrototypeOf";
    "propertyIsEnumerable";
    "toString";
    "valueOf";
    "__proto__";
    "toLocaleString" ].

End JS.

(** The line feed, written [\n] in the source, and the double quote. *)
Definition LF : string := String "010" "".
Definition DQUOTE : string := String "034" "".

(** The character that ends a C string. *)
Definition NUL : string := String "000" "".

(** ** Process state, exceptions and effects *)

(** What a failing system call throws. [error_text] is the rendering of the
    caught object inside a template literal. *)
Inductive error : Type :=
  | SpawnFailure (msg : string)
  | Timeout (msg : string)
  | NonZeroExit (status : Z) (msg : string)
  | CwdFailure (msg : string)
  | FileReadFailure (msg : string).

Definition error_text (e : error) : string :=
  match e with
  | SpawnFailure msg | Timeout msg | NonZeroExit _ msg
  | CwdFailure msg | FileReadFailure msg => "Error: " +:+ msg
  end.

Inductive level : Type := Info | Warn.

(** [process.env] and the records received by [mainLog]. *)
Record State : Type := mkState {
  penv : gmap string string;
  logs : list (level * string);
}.

Inductive completion (A : Type) : Type :=
  | Normal (a : A)
  | Throw (e : error).
Arguments Normal {A} a.
Arguments Throw {A} e.

Definition M (A : Type) : Type := State → State * completion A.

#[global] Instance M_ret : MRet M := λ A a st, (st, Normal a).

#[global] Instance M_bind : MBind M := λ A B f m st,
  match m st with
  | (st', Normal a) => f a st'
  | (st', Throw e) => (st', Throw e)
  end.

Definition throw {A : Type} (e : error) : M A := λ st, (st, Throw e).

(** [try { body } catch (error) { handler }]: writes made by [body] before
    it throws stay in place. *)
Definition try_catch {A : Type} (body : M A) (handler : error → M A) : M A :=
  λ st,
    match body st with
    | (st', Throw e) => handler e st'
    | (st', Normal a) => (st', Normal a)
    end.

(** The outcome of a system call: a value, or an exception. *)
Definition lift {A : Type} (r : error + A) : M A :=
  match r with
  | inl e => throw e
  | inr a => mret a
  end.

(** [process.env.NAME], a read by name. The loaders read six names this
    way (VITE_DEV_SERVER_URL, SHELL, HOME, USER, TMPDIR, PATH), none of
    which [Object.prototype] has, so the read is a lookup among the
    variables that are set. *)
Definition getenv (k : string) : M JS.value :=
  λ st, (st, Normal (penv st !! k)).

(** What [process.env[key]] gives at a key computed at run time: the
    variable of that name if one is set; otherwise, for a name of
    [Object.prototype], the inherited member (a function or an object,
    which is truthy); otherwise [undefined]. *)
Inductive property : Type :=
  | Own (value : string)
  | Inherited
  | Missing.

Definition env_property (env : gmap string string) (key : string) : property :=
  match env !! key with
  | Some value => Own value
  | None =>
      if bool_decide (key ∈ JS.Object_prototype) then Inherited else Missing
  end.

Definition property_truthy (p : property) : bool :=
  match p with
  | Own value => JS.truthy (Some value)
  | Inherited => true
  | Missing => false
  end.

(** [process.env[key]] *)
Definition getprop (key : string) : M property :=
  λ st, (st, Normal (env_property (penv st) key)).

(** [process.env[k] = v]. The table keeps [k] and [v] as written; the
    environment itself holds C strings and would keep each up to its
    first NUL character. *)
Definition setenv (k v : string) : M unit :=
  λ st, (mkState (<[k := v]> (penv st)) (logs st), Normal tt).

(** [mainLog.info(msg)], [mainLog.warn(msg)] *)
Definition log (l : level) (msg : string) : M unit :=
  λ st, (mkState (penv st) (logs st ++ [(l, msg)]), Normal tt).

(** [for (const x of items) { ... }] around a body that updates the local
    counter [count]. *)
Fixpoint for_of {A : Type} (items : list A) (body : A → nat → M nat)
    (count : nat) : M nat :=
  match items with
  | [] => mret count
  | x :: rest => count' ← body x count; for_of rest body count'
  end.

(** What the loaders ask of the operating system. *)
Record World : Type := mkWorld {
  (** [process.platform] *)
  platform : string;
  (** [execSync(command, { env, ... })]: captured stdout, or the exception
      of a failed spawn, a non-zero exit or the 5 s timeout. *)
  execSync : string → list (string * JS.value) → error + string;
  (** [process.cwd()] *)
  cwd : error + string;
  (** [path.join] *)
  path_join : string → string → string;
  (** [fs.existsSync] *)
  existsSync : string → bool;
  (** [fs.readFileSync(path, 'utf-8')] *)
  readFileSync : string → error + string;
}.

(** ** The loaders *)

Definition shouldSkipEnvVar (key : string) : bool :=
  JS.startsWith key "VITE_".

(** The seven fallback directories, [home] being [process.env.HOME]. *)
Definition fallbackPaths (home : JS.value) : list string :=
  [ "/opt/homebrew/bin";
    "/opt/homebrew/sbin";
    "/usr/local/bin";
    "/usr/local/sbin";
    JS.template home +:+ "/.local/bin";
    JS.template home +:+ "/.bun/bin";
    JS.template home +:+ "/.cargo/bin" ].

(** [.filter((p, i, arr) => arr.indexOf(p) === i)] *)
Definition dedupe (arr : list string) : list string :=
  JS.filter_indexed (λ p i arr, (JS.arr_indexOf arr p =? i)%Z) arr.

(** Body of the loop of [loadShellEnv] over the lines after the marker. *)
Definition shell_line (line : string) (count : nat) : M nat :=
  let eq := JS.indexOf line "=" in
  if (0 <? eq)%Z then
    let key := JS.substring line 0 eq in
    if shouldSkipEnvVar key then mret count
    else
      let value := JS.substring_from line (eq + 1) in
      setenv key value ;;
      mret (S count)
  else mret count.

(** The environment handed to the child shell. *)
Definition child_env (home user tmpdir : JS.value) (shell : string)
    : list (string * JS.value) :=
  [ ("HOME", home);
    ("USER", user);
    ("SHELL", Some shell);
    ("TERM", Some "xterm-256color");
    ("TMPDIR", tmpdir);
    ("APPLE_SUPPRESS_DEVELOPER_TOOL_POPUP", Some "1");
    ("GIT_TERMINAL_PROMPT", Some "0") ].

(** The [catch] block of [loadShellEnv]. *)
Definition shell_fallback (error : error) : M unit :=
  log Warn ("[shell-env] Failed to load shell environment: " +:+ error_text error) ;;
  log Warn "[shell-env] Adding common paths as fallback" ;;
  home ← getenv "HOME";
  path ← getenv "PATH";
  let currentPath := JS.or_else path "/usr/bin:/bin:/usr/sbin:/sbin" in
  let newPath :=
    JS.join ":" (dedupe (fallbackPaths home ++ JS.split currentPath ":")) in
  setenv "PATH" newPath.

(** The [try] block of [loadShellEnv]. *)
Definition shell_try (w : World) (shell : string) : M unit :=
  home ← getenv "HOME";
  user ← getenv "USER";
  tmpdir ← getenv "TMPDIR";
  output ← lift (execSync w (shell +:+ " -l -i -c 'echo __ENV_START__ && env'")
                   (child_env home user tmpdir shell));
  let envSection := JS.or_else (JS.split output "__ENV_START__" !! 1%nat) "" in
  count ← for_of (JS.split (JS.trim envSection) LF) shell_line 0%nat;
  log Info ("[shell-env] Loaded " +:+ pretty count +:+ " environment variables") ;;
  path ← getenv "PATH";
  if JS.truthy path then
    let pathCount := length (JS.split (default "" path) ":") in
    log Info ("[shell-env] PATH has " +:+ pretty pathCount +:+ " entries")
  else mret tt.

Definition loadShellEnv (w : World) : M unit :=
  if negb (String.eqb (platform w) "darwin") then mret tt
  else
    dev ← getenv "VITE_DEV_SERVER_URL";
    if JS.truthy dev then
      log Info "[shell-env] Skipping in dev mode (already have shell environment)"
    else
      sh ← getenv "SHELL";
      let shell := JS.or_else sh "/bin/zsh" in
      log Info ("[shell-env] Loading environment from " +:+ shell) ;;
      try_catch (shell_try w shell) shell_fallback.

(** The quote removal of [loadDotEnv], written inline in the source. *)
Definition stripQuotes (value : string) : string :=
  if (JS.startsWith value DQUOTE && JS.endsWith value DQUOTE)
     || (JS.startsWith value "'" && JS.endsWith value "'")
  then JS.slice value 1 (-1)
  else value.

(** Body of the loop of [loadDotEnv] over the lines of the file. *)
Definition dotenv_line (line : string) (count : nat) : M nat :=
  let trimmed := JS.trim line in
  if negb (JS.truthy (Some trimmed)) || JS.startsWith trimmed "#" then mret count
  else
    let eq := JS.indexOf trimmed "=" in
    if (0 <? eq)%Z then
      let key := JS.trim (JS.substring trimmed 0 eq) in
      let value := stripQuotes (JS.trim (JS.substring_from trimmed (eq + 1))) in
      current ← getprop key;
      if negb (property_truthy current) then
        setenv key value ;;
        mret (S count)
      else mret count
    else mret count.

(** The [try] block of [loadDotEnv]. *)
Definition dotenv_try (w : World) : M unit :=
  dir ← lift (cwd w);
  let envPath := path_join w dir ".env" in
  if negb (existsSync w envPath) then
    log Info ("[dotenv] No .env file found at " +:+ envPath)
  else
    envContent ← lift (readFileSync w envPath);
    count ← for_of (JS.split envContent LF) dotenv_line 0%nat;
    log Info ("[dotenv] Loaded " +:+ pretty count +:+ " variables from .env").

Definition loadDotEnv (w : World) : M unit :=
  dev ← getenv "VITE_DEV_SERVER_URL";
  if negb (JS.truthy dev) then mret tt
  else
    try_catch (dotenv_try w)
      (λ error, log Warn ("[dotenv] Failed to load .env file: " +:+ error_text error)).

(** ** Pure readings of the two loops

    The table written by a loop is a fold over the entries its lines
    parse to; the lemmas [for_of_shell_line] and [for_of_dotenv_line]
    below connect the loops to these folds. *)

(** [output.split('__ENV_START__')[1] || ''] *)
Definition env_section (output : string) : string :=
  JS.or_else (JS.split output "__ENV_START__" !! 1%nat) "".

(** The entry a line of shell output is merged as, if any. *)
Definition shell_entry (line : string) : option (string * string) :=
  let eq := JS.indexOf line "=" in
  if (0 <? eq)%Z then
    let key := JS.substring line 0 eq in
    if shouldSkipEnvVar key then None
    else Some (key, JS.substring_from line (eq + 1))
  else None.

Definition shell_entries (output : string) : list (string * string) :=
  omap shell_entry (JS.split (JS.trim (env_section output)) LF).

(** [process.env[key] = value] *)
Definition write (env : gmap string string) (kv : string * string)
    : gmap string string :=
  <[kv.1 := kv.2]> env.

(** The entry a line of the [.env] file parses to, if any. *)
Definition dotenv_entry (line : string) : option (string * string) :=
  let trimmed := JS.trim line in
  if negb (JS.truthy (Some trimmed)) || JS.startsWith trimmed "#" then None
  else
    let eq := JS.indexOf trimmed "=" in
    if (0 <? eq)%Z then
      Some (JS.trim (JS.substring trimmed 0 eq),
            stripQuotes (JS.trim (JS.substring_from trimmed (eq + 1))))
    else None.

Definition dotenv_entries (envContent : string) : list (string * string) :=
  omap dotenv_entry (JS.split envContent LF).

(** [if (!process.env[key]) process.env[key] = value] *)
Definition write_if_unset (env : gmap string string) (kv : string * string)
    : gmap string string :=
  if property_truthy (env_property env kv.1) then env else <[kv.1 := kv.2]> env.

(** The values a list of entries holds for [key], in order. *)
Definition values_of (key : string) (entries : list (string * string))
    : list string :=
  (filter (λ kv, kv.1 = key) entries).*2.

(** The shell the loader runs and what running it gives, read off the
    environment table [env]. *)
Definition shell_of (env : gmap string string) : string :=
  JS.or_else (env !! "SHELL") "/bin/zsh".

Definition shell_outcome (w : World) (env : gmap string string)
    : error + string :=
  execSync w (shell_of env +:+ " -l -i -c 'echo __ENV_START__ && env'")
    (child_env (env !! "HOME") (env !! "USER") (env !! "TMPDIR") (shell_of env)).

(** The PATH the [catch] block writes. *)
Definition fallback_path (env : gmap string string) : string :=
  JS.join ":"
    (dedupe (fallbackPaths (env !! "HOME")
             ++ JS.split (JS.or_else (env !! "PATH") "/usr/bin:/bin:/usr/sbin:/sbin") ":")).

(** What reading the [.env] file gives: [None] when there is no file. *)
Definition dotenv_file (w : World) : error + option string :=
  match cwd w with
  | inl e => inl e
  | inr dir =>
      let envPath := path_join w dir ".env" in
      if existsSync w envPath then
        match readFileSync w envPath with
        | inl e => inl e
        | inr envContent => inr (Some envContent)
        end
      else inr None
  end.

(** Duplicates removed, the first occurrence of each entry kept. *)
Fixpoint keep_first (l : list string) : list string :=
  match l with
  | [] => []
  | x :: rest => x :: filter (λ y, y ≠ x) (keep_first rest)
  end.

(** Both loaders, the shell loader first. *)
Definition loadBoth (w : World) : M unit :=
  loadShellEnv w ;; loadDotEnv w.

(** The table each loader leaves, as a function of the table it starts
    from ([loadShellEnv_run] and [loadDotEnv_run] prove that the loaders
    compute them). *)
Definition shell_result (w : World) (env : gmap string string)
    : gmap string string :=
  if negb (String.eqb (platform w) "darwin") then env
  else if JS.truthy (env !! "VITE_DEV_SERVER_URL") then env
  else
    match shell_outcome w env with
    | inr output => foldl write env (shell_entries output)
    | inl _ => <["PATH" := fallback_path env]> env
    end.

Definition dotenv_result (w : World) (env : gmap string string)
    : gmap string string :=
  if negb (JS.truthy (env !! "VITE_DEV_SERVER_URL")) then env
  else
    match dotenv_file w with
    | inr (Some envContent) => foldl write_if_unset env (dotenv_entries envContent)
    | inr None | inl _ => env
    end.

(** The value a key ends with after the [.env] loop: [current] is what
    the table holds for it, [vs] are the values the file gives it. *)
Fixpoint settle (current : JS.value) (vs : list string) : JS.value :=
  match vs with
  | [] => current
  | v :: rest => settle (if JS.truthy current then current else Some v) rest
  end.

(** ** Worlds and states for concrete runs *)

Definition posix_join (dir name : string) : string := dir +:+ "/" +:+ name.

(** A world on platform [plat] where the shell invocation gives [shell] and
    reading [/project/.env] gives [file] ([inr None]: no such file). *)
Definition world (plat : string) (shell : error + string)
    (file : error + option string) : World :=
  mkWorld plat (λ _ _, shell) (inr "/project") posix_join
    (λ _, match file with inr None => false | _ => true end)
    (λ _, match file with
          | inr (Some envContent) => inr envContent
          | inr None => inl (FileReadFailure "ENOENT: no such file or directory")
          | inl e => inl e
          end).

Definition state_of (vars : list (string * string)) : State :=
  mkState (list_to_map vars) [].

(** [lines l] is the text whose lines are [l], each ended by a line feed. *)
Definition lines (l : list string) : string :=
  foldr (λ line text, line +:+ LF +:+ text) "" l.

(** ** The AWS Bedrock credentials form (AwsBedrockInput.tsx)

    The component is read as a state machine: the six [useState] cells
    are the state, the handlers of the rendered elements are the events,
    and what the markup derives from props and state (who is disabled,
    which region is shown and checked, the type of the secret inputs,
    whether the error line is there) are functions of them. Layout and
    styling are left out. *)

Module Bedrock.

Inductive AwsBedrockStatus : Type := Idle | Validating | Success | Error.

#[global] Instance AwsBedrockStatus_eq_dec : EqDecision AwsBedrockStatus.
Proof. solve_decision. Defined.

Record AwsBedrockSubmitData : Type := mkSubmitData {
  accessKeyId : string;
  secretAccessKey : string;
  region : string;
  (** [sessionToken?: string] *)
  sessionToken : JS.value;
}.

Record AwsBedrockInputProps : Type := mkProps {
  status : AwsBedrockStatus;
  (** [errorMessage?: string] *)
  errorMessage : JS.value;
  (** [disabled?: boolean] *)
  disabled : option bool;
}.

Record AwsRegion : Type := mkRegion {
  id : string;
  name : string;
}.

Definition AWS_REGIONS : list AwsRegion :=
  [ mkRegion "us-east-1" "US East (N. Virginia)";
    mkRegion "us-west-2" "US West (Oregon)";
    mkRegion "eu-west-1" "Europe (Ireland)";
    mkRegion "eu-central-1" "Europe (Frankfurt)";
    mkRegion "ap-northeast-1" "Asia Pacific (Tokyo)";
    mkRegion "ap-southeast-1" "Asia Pacific (Singapore)";
    mkRegion "ap-southeast-2" "Asia Pacific (Sydney)" ].

(** The [useState] cells of the component. *)
Record FormState : Type := mkForm {
  form_accessKeyId : string;
  form_secretAccessKey : string;
  form_sessionToken : string;
  form_region : string;
  showSecretKey : bool;
  showSessionToken : bool;
}.

(** The state of the first render. *)
Definition initial : FormState := mkForm "" "" "" "us-east-1" false false.

(** [disabled || status === 'validating'] *)
Definition isDisabled (props : AwsBedrockInputProps) : bool :=
  match disabled props with
  | Some true => true
  | _ => bool_decide (status props = Validating)
  end.

(** The argument [handleSubmit] calls [onSubmit] with. *)
Definition handleSubmit (form : FormState) : AwsBedrockSubmitData :=
  mkSubmitData
    (JS.trim (form_accessKeyId form))
    (JS.trim (form_secretAccessKey form))
    (form_region form)
    (let token := JS.trim (form_sessionToken form) in
     if JS.truthy (Some token) then Some token else None).

(** [AWS_REGIONS.find(r => r.id === region) || AWS_REGIONS[0]]; [None]
    stands for [undefined], on which reading [.name] would throw. *)
Definition selectedRegion (region : string) : option AwsRegion :=
  match List.find (λ r, String.eqb (id r) region) AWS_REGIONS with
  | Some r => Some r
  | None => AWS_REGIONS !! 0%nat
  end.

(** The check mark of a menu item: [region === r.id]. *)
Definition checked (form : FormState) (r : AwsRegion) : bool :=
  String.eqb (form_region form) (id r).

(** [type={show ? 'text' : 'password'}] *)
Definition input_type (show : bool) : string :=
  if show then "text" else "password".

(** [status === 'error' && errorMessage]: whether the error line is
    rendered. *)
Definition error_shown (props : AwsBedrockInputProps) : bool :=
  bool_decide (status props = Error) && JS.truthy (errorMessage props).

(** What the user can do to the rendered form: type into one of the three
    inputs, press one of the two eye buttons, pick the menu item at
    position [i] of the region menu. *)
Inductive Event : Type :=
  | ChangeAccessKeyId (value : string)
  | ChangeSecretAccessKey (value : string)
  | ChangeSessionToken (value : string)
  | ToggleSecretKey
  | ToggleSessionToken
  | ClickRegion (i : nat).

Definition step (form : FormState) (ev : Event) : FormState :=
  match ev with
  | ChangeAccessKeyId value =>
      mkForm value (form_secretAccessKey form) (form_sessionToken form)
        (form_region form) (showSecretKey form) (showSessionToken form)
  | ChangeSecretAccessKey value =>
      mkForm (form_accessKeyId form) value (form_sessionToken form)
        (form_region form) (showSecretKey form) (showSessionToken form)
  | ChangeSessionToken value =>
      mkForm (form_accessKeyId form) (form_secretAccessKey form) value
        (form_region form) (showSecretKey form) (showSessionToken form)
  | ToggleSecretKey =>
      mkForm (form_accessKeyId form) (form_secretAccessKey form)
        (form_sessionToken form) (form_region form)
        (negb (showSecretKey form)) (showSessionToken form)
  | ToggleSessionToken =>
      mkForm (form_accessKeyId form) (form_secretAccessKey form)
        (form_sessionToken form) (form_region form)
        (showSecretKey form) (negb (showSessionToken form))
  | ClickRegion i =>
      match AWS_REGIONS !! i with
      | Some r =>
          mkForm (form_accessKeyId form) (form_secretAccessKey form)
            (form_sessionToken form) (id r)
            (showSecretKey form) (showSessionToken form)
      | None => form
      end
  end.

(** The form after a sequence of events. *)
Definition run (events : list Event) : FormState := foldl step initial events.

End Bedrock.

(** * Properties *)

(** ** The primitives on concrete inputs *)

Example split_lines : JS.split ("a" +:+ LF +:+ "b" +:+ LF) LF = ["a"; "b"; ""].
Proof. reflexivity. Qed.

Example split_marker :
  JS.split "noise__ENV_START__x__ENV_START__y" "__ENV_START__" = ["noise"; "x"; "y"].
Proof. reflexivity. Qed.

Example split_empty : JS.split "" ":" = [""].
Proof. reflexivity. Qed.

Example trim_ex : JS.trim "  a b	 " = "a b".
Proof. reflexivity. Qed.

Example slice_ex : JS.slice "'a'b'" 1 (-1)%Z = "a'b".
Proof. reflexivity. Qed.

Example slice_one : JS.slice "'" 1 (-1)%Z = "".
Proof. reflexivity. Qed.

Example substring_ex :
  JS.substring "K=v=w" 0 1 = "K" ∧ JS.substring_from "K=v=w" 2 = "v=w".
Proof. split; reflexivity. Qed.

Example indexOf_ex : JS.indexOf "K=v=w" "=" = 1%Z ∧ JS.indexOf "Kv" "=" = (-1)%Z.
Proof. split; reflexivity. Qed.

Example join_ex : JS.join ":" ["a"; "b"; "c"] = "a:b:c".
Proof. reflexivity. Qed.

(** ** Running the loops *)

Lemma state_eta (st : State) : mkState (penv st) (logs st) = st.
Proof. by destruct st. Qed.

Lemma shell_line_run line count st :
  shell_line line count st =
    match shell_entry line with
    | Some kv => (mkState (write (penv st) kv) (logs st), Normal (S count))
    | None => (st, Normal count)
    end.
Proof.
  unfold shell_line, shell_entry.
  destruct (0 <? JS.indexOf line "=")%Z; [|done].
  by destruct (shouldSkipEnvVar _).
Qed.

Lemma for_of_shell_line lines : ∀ count st,
  ∃ count', for_of lines shell_line count st =
    (mkState (foldl write (penv st) (omap shell_entry lines)) (logs st),
     Normal count').
Proof.
  induction lines as [|line lines IH]; intros count st; simpl.
  - exists count. by rewrite state_eta.
  - unfold mbind, M_bind. rewrite shell_line_run.
    destruct (shell_entry line) as [kv|]; simpl.
    + apply (IH (S count) (mkState (write (penv st) kv) (logs st))).
    + apply IH.
Qed.

Lemma dotenv_line_run line count st :
  ∃ count', dotenv_line line count st =
    (mkState (from_option (write_if_unset (penv st)) (penv st) (dotenv_entry line))
             (logs st), Normal count').
Proof.
  unfold dotenv_line, dotenv_entry.
  destruct (negb _ || _); simpl; [exists count; by rewrite state_eta|].
  destruct (0 <? _)%Z; simpl; [|exists count; by rewrite state_eta].
  unfold mbind, M_bind, getprop, write_if_unset; simpl.
  destruct (property_truthy _); simpl; eexists; by rewrite ?state_eta.
Qed.

Lemma for_of_dotenv_line lines : ∀ count st,
  ∃ count', for_of lines dotenv_line count st =
    (mkState (foldl write_if_unset (penv st) (omap dotenv_entry lines)) (logs st),
     Normal count').
Proof.
  induction lines as [|line lines IH]; intros count st; simpl.
  - exists count. by rewrite state_eta.
  - unfold mbind, M_bind.
    destruct (dotenv_line_run line count st) as [count' ->].
    destruct (IH count' (mkState
      (from_option (write_if_unset (penv st)) (penv st) (dotenv_entry line))
      (logs st))) as [count'' ->]; simpl.
    exists count''. by destruct (dotenv_entry line).
Qed.

(** ** Running the loaders *)

Ltac run_effects :=
  repeat progress
    (unfold mbind, M_bind, mret, M_ret, getenv, getprop, setenv, log, lift,
       throw, try_catch; simpl).

Lemma loadShellEnv_run w st :
  ∃ lg, loadShellEnv w st = (mkState (shell_result w (penv st)) lg, Normal tt).
Proof.
  unfold loadShellEnv, shell_result.
  destruct (negb _); [exists (logs st); by rewrite state_eta|].
  unfold mbind at 1, M_bind at 1, getenv at 1; simpl.
  destruct (JS.truthy (penv st !! "VITE_DEV_SERVER_URL")).
  { eexists. reflexivity. }
  unfold shell_try, shell_outcome, shell_of. run_effects.
  destruct (execSync w _ _) as [e|output]; simpl.
  - unfold shell_fallback. run_effects. eexists. reflexivity.
  - match goal with |- context [for_of ?l shell_line ?c ?s] =>
      destruct (for_of_shell_line l c s) as [count ->] end; simpl.
    destruct (JS.truthy _); eexists; reflexivity.
Qed.

Lemma loadDotEnv_run w st :
  ∃ lg, loadDotEnv w st = (mkState (dotenv_result w (penv st)) lg, Normal tt).
Proof.
  unfold loadDotEnv, dotenv_result.
  unfold mbind at 1, M_bind at 1, getenv at 1; simpl.
  destruct (negb _); [exists (logs st); by rewrite state_eta|].
  unfold dotenv_try, dotenv_file. run_effects.
  destruct (cwd w) as [e|dir]; simpl; [eexists; reflexivity|].
  destruct (existsSync w _); simpl; [|eexists; reflexivity].
  destruct (readFileSync w _) as [e|envContent]; simpl; [eexists; reflexivity|].
  match goal with |- context [for_of ?l dotenv_line ?c ?s] =>
    destruct (for_of_dotenv_line l c s) as [count ->] end; simpl.
  eexists; reflexivity.
Qed.

Lemma loadShellEnv_env w st :
  penv (loadShellEnv w st).1 = shell_result w (penv st).
Proof. by destruct (loadShellEnv_run w st) as [lg ->]. Qed.

Lemma loadDotEnv_env w st :
  penv (loadDotEnv w st).1 = dotenv_result w (penv st).
Proof. by destruct (loadDotEnv_run w st) as [lg ->]. Qed.

Lemma loadShellEnv_returns w st : (loadShellEnv w st).2 = Normal tt.
Proof. by destruct (loadShellEnv_run w st) as [lg ->]. Qed.

Lemma loadDotEnv_returns w st : (loadDotEnv w st).2 = Normal tt.
Proof. by destruct (loadDotEnv_run w st) as [lg ->]. Qed.

(** The run of the specification: [FOO] and [PATH] are taken from the
    shell, [VITE_X] is not, and two variables are counted. *)
Example shell_run_end_to_end :
  let r := loadShellEnv
             (world "darwin"
                (inr (lines ["__ENV_START__"; "FOO=bar"; "VITE_X=1"; "PATH=/a:/b"]))
                (inr None))
             (state_of [("PATH", "/bin")]) in
  r.2 = Normal tt
  ∧ penv r.1 !! "FOO" = Some "bar"
  ∧ penv r.1 !! "VITE_X" = None
  ∧ penv r.1 !! "PATH" = Some "/a:/b"
  ∧ logs r.1 = [ (Info, "[shell-env] Loading environment from /bin/zsh");
                 (Info, "[shell-env] Loaded 2 environment variables");
                 (Info, "[shell-env] PATH has 2 entries") ].
Proof. repeat split; reflexivity. Qed.

(** A run of the [.env] loader: comments and blank lines are passed over,
    quotes are taken off, and a variable that is set is kept. *)
Example dotenv_run_end_to_end :
  let r := loadDotEnv
             (world "darwin" (inr "")
                (inr (Some (lines ["# local settings"; "";
                                   " REGION = 'eu-west-1' "; "FOO=2"; "=x"; "novalue"]))))
             (state_of [("VITE_DEV_SERVER_URL", "http://localhost:5173"); ("FOO", "1")]) in
  r.2 = Normal tt
  ∧ penv r.1 !! "REGION" = Some "eu-west-1"
  ∧ penv r.1 !! "FOO" = Some "1"
  ∧ logs r.1 = [(Info, "[dotenv] Loaded 1 variables from .env")].
Proof. repeat split; reflexivity. Qed.

Lemma loadBoth_env w st :
  penv (loadBoth w st).1 = dotenv_result w (shell_result w (penv st)).
Proof.
  unfold loadBoth, mbind, M_bind.
  destruct (loadShellEnv_run w st) as [lg ->].
  by rewrite loadDotEnv_env.
Qed.

Lemma loadBoth_returns w st : (loadBoth w st).2 = Normal tt.
Proof.
  unfold loadBoth, mbind, M_bind.
  destruct (loadShellEnv_run w st) as [lg ->].
  by rewrite loadDotEnv_returns.
Qed.

(** ** Folds of writes *)

Lemma foldl_write_other entries : ∀ env k,
  k ∉ entries.*1 → foldl write env entries !! k = env !! k.
Proof.
  induction entries as [|[k' v'] entries IH]; intros env k Hk; [done|].
  simpl in *. apply not_elem_of_cons in Hk as [Hne Hk].
  rewrite IH by done. unfold write; simpl. by rewrite lookup_insert_ne.
Qed.

Lemma foldl_write_last before k v after env :
  k ∉ after.*1 → foldl write env (before ++ (k, v) :: after) !! k = Some v.
Proof.
  intros Hk. rewrite foldl_app; simpl.
  rewrite foldl_write_other by done.
  unfold write; simpl. by rewrite lookup_insert_eq.
Qed.

Lemma foldl_write_mono entries : ∀ env k,
  is_Some (env !! k) → is_Some (foldl write env entries !! k).
Proof.
  induction entries as [|[k' v'] entries IH]; intros env k Hk; [done|].
  simpl. apply IH. unfold write; simpl.
  destruct (decide (k' = k)) as [->|].
  - rewrite lookup_insert_eq. by eexists.
  - by rewrite lookup_insert_ne.
Qed.

(** A key is shadowed when no variable of that name is set and the
    name is inherited: the [.env] loop never writes it. *)
Lemma env_property_truthy env k :
  property_truthy (env_property env k)
  = match env !! k with
    | Some v => JS.truthy (Some v)
    | None => bool_decide (k ∈ JS.Object_prototype)
    end.
Proof.
  unfold env_property. destruct (env !! k); [done|]. by case_bool_decide.
Qed.

Lemma write_if_unset_lookup env k' v' k :
  write_if_unset env (k', v') !! k =
    if decide (k' = k)
    then (if property_truthy (env_property env k) then env !! k else Some v')
    else env !! k.
Proof.
  unfold write_if_unset; simpl.
  destruct (decide (k' = k)) as [->|Hne].
  - destruct (property_truthy _); [done|]. by rewrite lookup_insert_eq.
  - destruct (property_truthy _); [done|]. by rewrite lookup_insert_ne.
Qed.

Lemma foldl_write_if_unset_lookup entries : ∀ env k,
  foldl write_if_unset env entries !! k
  = if bool_decide (env !! k = None) && bool_decide (k ∈ JS.Object_prototype)
    then None
    else settle (env !! k) (values_of k entries).
Proof.
  induction entries as [|[k' v'] entries IH]; intros env k.
  - simpl. case_bool_decide as Hnone; [|done]. by destruct (bool_decide _).
  - simpl. rewrite IH, write_if_unset_lookup, env_property_truthy.
    unfold values_of. rewrite filter_cons; simpl.
    destruct (decide (k' = k)) as [->|Hne]; simpl; [|done].
    destruct (env !! k) as [v|] eqn:Hk; simpl.
    + destruct v as [|c v]; simpl; reflexivity.
    + destruct (bool_decide (k ∈ JS.Object_prototype)); simpl; reflexivity.
Qed.

Lemma foldl_write_if_unset_own entries env k :
  k ∉ JS.Object_prototype ∨ is_Some (env !! k) →
  foldl write_if_unset env entries !! k = settle (env !! k) (values_of k entries).
Proof.
  intros Hk. rewrite foldl_write_if_unset_lookup.
  destruct Hk as [Hk|[v Hv]].
  - rewrite (bool_decide_eq_false_2 _ Hk). by rewrite andb_false_r.
  - by rewrite Hv.
Qed.

Lemma foldl_write_if_unset_other entries env k :
  k ∉ entries.*1 → foldl write_if_unset env entries !! k = env !! k.
Proof.
  intros Hk. rewrite foldl_write_if_unset_lookup.
  assert (values_of k entries = []) as ->.
  { unfold values_of.
    assert (filter (λ kv : string * string, kv.1 = k) entries = []) as ->; [|done].
    induction entries as [|[k' v'] entries IH]; [done|].
    simpl in Hk. apply not_elem_of_cons in Hk as [Hne Hk].
    rewrite filter_cons_False by (simpl; congruence). by apply IH. }
  simpl. case_bool_decide as Hnone; [|done]. by destruct (bool_decide _).
Qed.

Lemma settle_truthy vs : ∀ current,
  JS.truthy current = true → settle current vs = current.
Proof.
  induction vs as [|v vs IH]; intros current Hc; [done|].
  simpl. rewrite Hc. by apply IH.
Qed.


Lemma settle_is_Some vs : ∀ current,
  is_Some current → is_Some (settle current vs).
Proof.
  induction vs as [|v vs IH]; intros current Hc; [done|].
  simpl. apply IH. destruct (JS.truthy current); [done|by eexists].
Qed.

Lemma settle_origin vs : ∀ current v,
  settle current vs = Some v → current = Some v ∨ v ∈ vs.
Proof.
  induction vs as [|v' vs IH]; intros current v Hs; [by left|].
  simpl in Hs. apply IH in Hs as [Hs|Hs]; [|right; by apply elem_of_cons; right].
  destruct (JS.truthy current); [by left|].
  right. apply elem_of_cons; left. congruence.
Qed.

Lemma values_of_elem k v entries : v ∈ values_of k entries → (k, v) ∈ entries.
Proof.
  unfold values_of. intros ([k' v'] & -> & Hin)%list_elem_of_fmap.
  apply list_elem_of_filter in Hin as [Hk Hin]. simpl in *. by subst.
Qed.


(** ** Entries of the shell output *)

Lemma shell_entry_not_skipped line k v :
  shell_entry line = Some (k, v) → shouldSkipEnvVar k = false.
Proof.
  unfold shell_entry. destruct (0 <? _)%Z; [|done].
  destruct (shouldSkipEnvVar _) eqn:Hk; [done|]. by intros [= <- _].
Qed.

Lemma shell_entries_not_skipped output k :
  shouldSkipEnvVar k = true → k ∉ (shell_entries output).*1.
Proof.
  intros Hk ([k' v] & -> & Hin)%list_elem_of_fmap.
  apply list_elem_of_omap in Hin as (line & _ & Hline).
  apply shell_entry_not_skipped in Hline. simpl in Hk. congruence.
Qed.

Lemma shell_result_skipped w env k :
  shouldSkipEnvVar k = true → shell_result w env !! k = env !! k.
Proof.
  intros Hk. unfold shell_result.
  destruct (negb _); [done|]. destruct (JS.truthy _); [done|].
  destruct (shell_outcome w env) as [e|output].
  - rewrite lookup_insert_ne; [done|]. by intros <-.
  - by apply foldl_write_other, shell_entries_not_skipped.
Qed.

Lemma shell_result_mono w env k :
  is_Some (env !! k) → is_Some (shell_result w env !! k).
Proof.
  intros Hk. unfold shell_result.
  destruct (negb _); [done|]. destruct (JS.truthy _); [done|].
  destruct (shell_outcome w env) as [e|output].
  - destruct (decide ("PATH" = k)) as [<-|].
    + rewrite lookup_insert_eq. by eexists.
    + by rewrite lookup_insert_ne.
  - by apply foldl_write_mono.
Qed.

Lemma dotenv_result_mono w env k :
  is_Some (env !! k) → is_Some (dotenv_result w env !! k).
Proof.
  intros Hk. unfold dotenv_result.
  destruct (negb _); [done|].
  destruct (dotenv_file w) as [e|[envContent|]]; [done| |done].
  rewrite foldl_write_if_unset_own by by right. by apply settle_is_Some.
Qed.

(** ** Strings *)

Lemma str_app_cons c s t : String c s +:+ t = String c (s +:+ t).
Proof. done. Qed.

Lemma str_app_nil_r s : s +:+ "" = s.
Proof. induction s as [|c s IH]; [done|]. by rewrite str_app_cons, IH. Qed.

Lemma str_app_assoc a b c : (a +:+ b) +:+ c = a +:+ b +:+ c.
Proof. induction a as [|x a IH]; [done|]. by rewrite !str_app_cons, IH. Qed.

Lemma str_length_app a b :
  String.length (a +:+ b) = String.length a + String.length b.
Proof. induction a as [|x a IH]; [done|]. rewrite str_app_cons; simpl. by rewrite IH. Qed.

Lemma rev_app_spec s : ∀ acc, String.rev_app s acc = String.rev s +:+ acc.
Proof.
  unfold String.rev. induction s as [|c s IH]; intros acc; simpl; [done|].
  by rewrite IH, (IH (String c "")), str_app_assoc.
Qed.

Lemma str_rev_cons c s : String.rev (String c s) = String.rev s +:+ String c "".
Proof. unfold String.rev at 1; simpl. apply rev_app_spec. Qed.

Lemma str_rev_app a b : String.rev (a +:+ b) = String.rev b +:+ String.rev a.
Proof.
  induction a as [|x a IH]; [by rewrite str_app_nil_r|].
  by rewrite str_app_cons, !str_rev_cons, IH, str_app_assoc.
Qed.

Lemma str_rev_involutive s : String.rev (String.rev s) = s.
Proof.
  induction s as [|c s IH]; [done|].
  rewrite str_rev_cons, str_rev_app, IH. reflexivity.
Qed.

Lemma startsWith_app p x : JS.startsWith (p +:+ x) p = true.
Proof.
  induction p as [|c p IH]; [done|].
  rewrite str_app_cons; simpl. by rewrite Ascii.eqb_refl.
Qed.

Lemma endsWith_app x p : JS.endsWith (x +:+ p) p = true.
Proof. unfold JS.endsWith. rewrite str_rev_app. apply startsWith_app. Qed.

Lemma startsWith_char s c :
  JS.startsWith s (String c "") = true → ∃ t, s = String c t.
Proof.
  destruct s as [|b s]; simpl; [done|].
  destruct (Ascii.eqb_spec c b) as [->|]; [by exists s|done].
Qed.


Lemma take_length_app a b : JS.take (String.length a) (a +:+ b) = a.
Proof. induction a as [|x a IH]; [by destruct b|]. rewrite str_app_cons; simpl. by rewrite IH. Qed.



(** ** Quote removal *)



(** ** Output without the marker *)

Lemma split_go_absent sep s : ∀ i cur,
  (0 ≤ i)%Z → JS.indexOf_from s sep i = (-1)%Z →
  JS.split_go sep 0 cur s = [String.rev_app cur s].
Proof.
  induction s as [|c s IH]; intros i cur Hi Hidx; [done|].
  cbn [JS.indexOf_from JS.split_go] in *.
  destruct (JS.startsWith (String c s) sep); [lia|].
  apply (IH (i + 1)%Z); [lia|done].
Qed.

Lemma split_absent s sep :
  JS.indexOf s sep = (-1)%Z → JS.split s sep = [s].
Proof. intros H. unfold JS.split. by rewrite (split_go_absent sep s 0). Qed.

Lemma shell_entries_absent output :
  JS.indexOf output "__ENV_START__" = (-1)%Z → shell_entries output = [].
Proof.
  intros H. unfold shell_entries, env_section.
  rewrite (split_absent output) by done. reflexivity.
Qed.

(** ** Removal of duplicates *)

Lemma arr_indexOf_from_first pre x rest : ∀ i,
  (JS.arr_indexOf_from (pre ++ x :: rest) x i =? i + Z.of_nat (length pre))%Z
  = bool_decide (x ∉ pre).
Proof.
  induction pre as [|y pre IH]; intros i; simpl.
  - by rewrite String.eqb_refl, Z.add_0_r, Z.eqb_refl.
  - destruct (String.eqb_spec y x) as [->|Hne].
    + transitivity false; [apply Z.eqb_neq; lia|].
      symmetry. apply bool_decide_eq_false. intros Hx. apply Hx. left.
    + replace (i + Z.of_nat (S (length pre)))%Z
        with ((i + 1) + Z.of_nat (length pre))%Z by lia.
      rewrite IH. apply bool_decide_ext. rewrite not_elem_of_cons.
      split; [by split|by intros [_ ?]].
Qed.

Lemma arr_indexOf_first pre x rest :
  (JS.arr_indexOf (pre ++ x :: rest) x =? Z.of_nat (length pre))%Z
  = bool_decide (x ∉ pre).
Proof. apply (arr_indexOf_from_first pre x rest 0). Qed.

Lemma dedupe_from rest : ∀ pre,
  JS.filter_from (λ p i arr, (JS.arr_indexOf arr p =? i)%Z)
    (pre ++ rest) rest (Z.of_nat (length pre))
  = filter (λ x, x ∉ pre) (keep_first rest).
Proof.
  induction rest as [|x rest IH]; intros pre; [done|].
  cbn [JS.filter_from keep_first].
  rewrite arr_indexOf_first, filter_cons.
  replace (Z.of_nat (length pre) + 1)%Z with (Z.of_nat (length (pre ++ [x])))
    by (rewrite length_app; simpl; lia).
  change (x :: rest) with ([x] ++ rest) at 1 2. rewrite app_assoc, IH.
  rewrite list_filter_filter.
  rewrite (list_filter_iff (λ y, y ∉ pre ++ [x]) (λ y, (y ∉ pre) ∧ y ≠ x)).
  - case_bool_decide; by case_decide.
  - intros y. rewrite not_elem_of_app, list_elem_of_singleton. naive_solver.
Qed.

Lemma filter_all (P : string → Prop) `{!∀ x, Decision (P x)} (l : list string) :
  (∀ x, x ∈ l → P x) → filter P l = l.
Proof.
  induction l as [|x l IH]; intros Hall; [done|].
  rewrite filter_cons_True by (apply Hall; left).
  f_equal. apply IH. intros y Hy. apply Hall. by right.
Qed.

Lemma dedupe_keep_first arr : dedupe arr = keep_first arr.
Proof.
  unfold dedupe, JS.filter_indexed.
  etrans; [exact (dedupe_from arr [])|]. apply filter_all.
  intros x _. apply not_elem_of_nil.
Qed.

Lemma keep_first_elem x l : x ∈ keep_first l ↔ x ∈ l.
Proof.
  induction l as [|y l IH]; [done|]. simpl.
  rewrite !elem_of_cons, list_elem_of_filter, IH.
  destruct (decide (x = y)); tauto.
Qed.

Lemma keep_first_NoDup l : NoDup (keep_first l).
Proof.
  induction l as [|y l IH]; simpl; [constructor|].
  apply NoDup_cons. split.
  - rewrite list_elem_of_filter. by intros [? _].
  - by apply NoDup_filter.
Qed.

Lemma keep_first_app F : ∀ P,
  NoDup F → keep_first (F ++ P) = F ++ filter (λ x, x ∉ F) (keep_first P).
Proof.
  induction F as [|y F IH]; intros P HF; simpl.
  - symmetry. apply filter_all. intros x _. apply not_elem_of_nil.
  - apply NoDup_cons in HF as [Hy HF].
    rewrite IH, filter_app, list_filter_filter by done.
    f_equal. f_equal.
    + apply filter_all. intros x Hx ->. done.
    + apply list_filter_iff. intros x. rewrite not_elem_of_cons. naive_solver.
Qed.

(** The fallback directories are pairwise different, whatever [HOME] is. *)
Lemma suffix_differs h suf c :
  JS.endsWith c suf = false → c ≠ h +:+ suf.
Proof. intros Hc ->. by rewrite endsWith_app in Hc. Qed.

Lemma fallbackPaths_NoDup home : NoDup (fallbackPaths home).
Proof.
  unfold fallbackPaths.
  repeat (apply NoDup_cons; split); try apply NoDup_nil_2;
    rewrite ?not_elem_of_cons; repeat split; try apply not_elem_of_nil;
    try discriminate; try (by apply suffix_differs);
    intros H%(inj (String.app _)); discriminate.
Qed.

(** ** Well-formed lines of the shell output *)

Lemma indexOf_from_shift s p : ∀ i j,
  (0 ≤ i)%Z → (0 ≤ j)%Z →
  JS.indexOf_from s p i = (-1)%Z → JS.indexOf_from s p j = (-1)%Z.
Proof.
  induction s as [|c s IH]; intros i j Hi Hj; cbn [JS.indexOf_from].
  - destruct (JS.startsWith "" p); [lia|done].
  - destruct (JS.startsWith (String c s) p); [lia|].
    apply IH; lia.
Qed.

Lemma indexOf_from_key k v : ∀ i,
  JS.indexOf k "=" = (-1)%Z →
  JS.indexOf_from (k +:+ "=" +:+ v) "=" i = (i + JS.len k)%Z.
Proof.
  unfold JS.indexOf, JS.len.
  induction k as [|c k IH]; intros i Hk.
  - change ("" +:+ "=" +:+ v) with (String "=" v). simpl. lia.
  - rewrite str_app_cons. cbn [JS.indexOf_from] in *.
    change (JS.startsWith (String c (k +:+ "=" +:+ v)) "=")
      with (JS.startsWith (String c k) "=").
    destruct (JS.startsWith (String c k) "="); [lia|].
    rewrite IH by (by apply (indexOf_from_shift k "=" 1 0)).
    simpl String.length. lia.
Qed.

Lemma drop_length_app a b : JS.drop (String.length a) (a +:+ b) = b.
Proof. induction a as [|x a IH]; [by destruct b|]. by rewrite str_app_cons. Qed.

Lemma take_length s : JS.take (String.length s) s = s.
Proof. induction s as [|c s IH]; [done|]. simpl. by rewrite IH. Qed.

Lemma substring_key k rest :
  JS.substring (k +:+ rest) 0 (JS.len k) = k.
Proof.
  unfold JS.substring, JS.clamp, JS.len. rewrite str_length_app.
  replace (Z.to_nat _) with (String.length k) by lia.
  replace (Z.to_nat _) with 0%nat by lia.
  apply take_length_app.
Qed.

Lemma substring_from_value k v :
  JS.substring_from (k +:+ "=" +:+ v) (JS.len k + 1) = v.
Proof.
  unfold JS.substring_from, JS.substring, JS.clamp, JS.len.
  rewrite !str_length_app. simpl String.length.
  replace (Z.to_nat _) with (String.length v) by lia.
  replace (Z.to_nat _) with (String.length (k +:+ "=")) by (rewrite str_length_app; simpl; lia).
  rewrite <- str_app_assoc, drop_length_app. apply take_length.
Qed.

Lemma shell_entry_well_formed k v :
  k ≠ "" → JS.indexOf k "=" = (-1)%Z → shouldSkipEnvVar k = false →
  shell_entry (k +:+ "=" +:+ v) = Some (k, v).
Proof.
  intros Hne Hk Hskip. unfold shell_entry, JS.indexOf.
  rewrite indexOf_from_key by done. rewrite Z.add_0_l.
  assert ((0 <? JS.len k)%Z = true) as ->.
  { apply Z.ltb_lt. unfold JS.len. destruct k; [done|simpl; lia]. }
  by rewrite substring_key, Hskip, substring_from_value.
Qed.

Lemma shell_entry_malformed line :
  JS.indexOf line "=" = (-1)%Z ∨ JS.startsWith line "=" = true →
  shell_entry line = None.
Proof.
  unfold shell_entry, JS.indexOf. intros [-> | Hstart]; [done|].
  destruct line as [|c line]; [done|].
  cbn [JS.indexOf_from]. by rewrite Hstart.
Qed.

(** ** Output with a marker *)

Lemma split_go_skip sep body : ∀ x cur,
  JS.split_go sep (String.length x) cur (x +:+ body) = JS.split_go sep 0 cur body.
Proof. induction x as [|c x IH]; intros cur; [done|]. rewrite str_app_cons. apply IH. Qed.

Lemma split_go_first sep body : sep ≠ "" → ∀ banner cur i,
  JS.indexOf_from (banner +:+ sep +:+ body) sep i = (i + JS.len banner)%Z →
  JS.split_go sep 0 cur (banner +:+ sep +:+ body)
  = String.rev_app cur banner :: JS.split_go sep 0 "" body.
Proof.
  intros Hsep. induction banner as [|c banner IH]; intros cur i Hidx.
  - destruct sep as [|a sep]; [done|].
    change ("" +:+ String a sep +:+ body) with (String a (sep +:+ body)).
    cbn [JS.split_go].
    change (String a (sep +:+ body)) with (String a sep +:+ body) at 1.
    rewrite startsWith_app.
    replace (String.length (String a sep) - 1) with (String.length sep)
      by (simpl; lia).
    by rewrite split_go_skip.
  - rewrite str_app_cons in *. cbn [JS.split_go JS.indexOf_from] in *.
    unfold JS.len in Hidx. simpl String.length in Hidx.
    destruct (JS.startsWith _ sep); [lia|].
    rewrite (IH (String c cur) (i + 1)%Z); [done|].
    rewrite Hidx. unfold JS.len. lia.
Qed.

Lemma split_first banner body :
  JS.indexOf (banner +:+ "__ENV_START__" +:+ body) "__ENV_START__" = JS.len banner →
  JS.split (banner +:+ "__ENV_START__" +:+ body) "__ENV_START__"
  = banner :: JS.split body "__ENV_START__".
Proof.
  intros Hidx. unfold JS.split.
  by rewrite (split_go_first "__ENV_START__" body ltac:(done) banner "" 0%Z).
Qed.

Lemma indexOf_marker_first body :
  JS.indexOf ("" +:+ "__ENV_START__" +:+ body) "__ENV_START__" = JS.len "".
Proof.
  unfold JS.indexOf.
  change ("" +:+ "__ENV_START__" +:+ body) with ("__ENV_START__" +:+ body).
  destruct body; reflexivity.
Qed.

(** Text before the first marker has no part in the section that is
    parsed, and with no further marker the section is all the text after
    it. *)
Lemma env_section_banner banner body :
  JS.indexOf (banner +:+ "__ENV_START__" +:+ body) "__ENV_START__" = JS.len banner →
  env_section (banner +:+ "__ENV_START__" +:+ body)
  = env_section ("__ENV_START__" +:+ body).
Proof.
  intros Hidx. unfold env_section.
  rewrite split_first by done.
  change ("__ENV_START__" +:+ body) with ("" +:+ "__ENV_START__" +:+ body).
  by rewrite (split_first "" body) by apply indexOf_marker_first.
Qed.

Lemma env_section_single banner body :
  JS.indexOf (banner +:+ "__ENV_START__" +:+ body) "__ENV_START__" = JS.len banner →
  JS.indexOf body "__ENV_START__" = (-1)%Z →
  env_section (banner +:+ "__ENV_START__" +:+ body) = body.
Proof.
  intros Hidx Hbody. unfold env_section.
  rewrite split_first, (split_absent body) by done.
  by destruct body.
Qed.

Lemma shell_entries_banner banner body :
  JS.indexOf (banner +:+ "__ENV_START__" +:+ body) "__ENV_START__" = JS.len banner →
  shell_entries (banner +:+ "__ENV_START__" +:+ body)
  = shell_entries ("__ENV_START__" +:+ body).
Proof. intros Hidx. unfold shell_entries. by rewrite env_section_banner. Qed.

(** ** The table after the shell loader *)

Lemma shell_result_fail w env e :
  platform w = "darwin" →
  JS.truthy (env !! "VITE_DEV_SERVER_URL") = false →
  shell_outcome w env = inl e →
  shell_result w env = <["PATH" := fallback_path env]> env.
Proof. intros Hplat Hdev Hfail. unfold shell_result. by rewrite Hplat, Hdev, Hfail. Qed.

Lemma shell_result_ok w env output :
  platform w = "darwin" →
  JS.truthy (env !! "VITE_DEV_SERVER_URL") = false →
  shell_outcome w env = inr output →
  shell_result w env = foldl write env (shell_entries output).
Proof. intros Hplat Hdev Hok. unfold shell_result. by rewrite Hplat, Hdev, Hok. Qed.

(** * The loaders against their specification *)

(** ** The development-mode gate of [loadDotEnv] *)




(** ** The prefix filter *)

(** C2, as stated, fails: in a development run the [.env] file brings in
    a key with the prefix [VITE_] that was not set before. *)
Lemma C2_counterexample :
  ¬ (∀ w st k, shouldSkipEnvVar k = true → penv st !! k = None →
       penv (loadBoth w st).1 !! k = None).
Proof.
  intros H.
  specialize (H (world "darwin" (inr "") (inr (Some "VITE_API_URL=http://localhost:3000")))
                (state_of [("VITE_DEV_SERVER_URL", "http://localhost:5173")])
                "VITE_API_URL" eq_refl eq_refl).
  vm_compute in H. discriminate.
Qed.

Lemma loadBoth_reversed_env w st :
  penv ((loadDotEnv w ;; loadShellEnv w) st).1
  = shell_result w (dotenv_result w (penv st)).
Proof.
  unfold mbind, M_bind.
  destruct (loadDotEnv_run w st) as [lg ->].
  by rewrite loadShellEnv_env.
Qed.

(** C2, amended: the invariant holds outside development mode. For
    every start in which the marker [VITE_DEV_SERVER_URL] is unset or
    empty and every shell outcome, after both loaders have run, in either
    order, every key with the prefix [VITE_] has the entry it had before:
    none is new, none is gone, none is changed. In every run the shell
    loader leaves the keys with the prefix as they are and no loader
    removes an entry. A key with the prefix can be new after both loaders
    only in a development run in which the [.env] file is read, and it
    is then the key of a line of that file (the keys of the file holding
    no NUL character), to which no prefix filter is applied. *)
Theorem C2_prefix_filter w st k :
  (shouldSkipEnvVar k = true →
     penv (loadShellEnv w st).1 !! k = penv st !! k)
  ∧ (is_Some (penv st !! k) →
     is_Some (penv (loadShellEnv w st).1 !! k)
     ∧ is_Some (penv (loadDotEnv w st).1 !! k)
     ∧ is_Some (penv (loadBoth w st).1 !! k))
  ∧ (JS.truthy (penv st !! "VITE_DEV_SERVER_URL") = false →
     shouldSkipEnvVar k = true →
     penv (loadBoth w st).1 !! k = penv st !! k
     ∧ penv ((loadDotEnv w ;; loadShellEnv w) st).1 !! k = penv st !! k)
  ∧ (shouldSkipEnvVar k = true → penv st !! k = None →
     is_Some (penv (loadBoth w st).1 !! k) →
     JS.truthy (penv st !! "VITE_DEV_SERVER_URL") = true
     ∧ ∃ envContent,
         dotenv_file w = inr (Some envContent)
         ∧ (Forall (λ kv, JS.indexOf kv.1 NUL = (-1)%Z) (dotenv_entries envContent) →
            k ∈ (dotenv_entries envContent).*1)).
Proof.
  rewrite loadShellEnv_env, loadDotEnv_env, loadBoth_env, loadBoth_reversed_env.
  assert (JS.truthy (penv st !! "VITE_DEV_SERVER_URL") = false →
          shouldSkipEnvVar k = true →
          dotenv_result w (shell_result w (penv st)) !! k = penv st !! k) as Hnodev.
  { intros Hdev Hskip. unfold dotenv_result at 1.
    rewrite (shell_result_skipped w _ "VITE_DEV_SERVER_URL"), Hdev by done.
    by apply shell_result_skipped. }
  split; [|split; [|split]].
  - apply shell_result_skipped.
  - intros Hk. repeat split.
    + by apply shell_result_mono.
    + by apply dotenv_result_mono.
    + by apply dotenv_result_mono, shell_result_mono.
  - intros Hdev Hskip. split; [by apply Hnodev|].
    unfold dotenv_result. rewrite Hdev. by apply shell_result_skipped.
  - intros Hskip Hnone Hnew.
    destruct (JS.truthy (penv st !! "VITE_DEV_SERVER_URL")) eqn:Hdev.
    2:{ rewrite Hnodev, Hnone in Hnew by done. by destruct Hnew. }
    split; [done|].
    assert (shell_result w (penv st) = penv st) as Hshell.
    { unfold shell_result. rewrite Hdev. by destruct (negb _). }
    rewrite Hshell in Hnew. unfold dotenv_result in Hnew. rewrite Hdev in Hnew.
    simpl in Hnew.
    destruct (dotenv_file w) as [e|[envContent|]];
      try (rewrite Hnone in Hnew; by destruct Hnew).
    exists envContent. split; [done|]. intros _.
    destruct (decide (k ∈ (dotenv_entries envContent).*1)) as [Hin|Hout]; [done|].
    rewrite foldl_write_if_unset_other, Hnone in Hnew by done. by destruct Hnew.
Qed.

Lemma C2_prefix_filter_witness :
  penv (loadShellEnv (world "darwin" (inr (lines ["__ENV_START__"; "VITE_X=1"; "FOO=bar"])) (inr None))
          (state_of [("PATH", "/bin")])).1 !! "VITE_X" = None
  ∧ is_Some (penv (loadBoth (world "darwin" (inl (Timeout "ETIMEDOUT")) (inr None))
                     (state_of [("PATH", "/bin")])).1 !! "PATH")
  ∧ penv (loadBoth
            (world "darwin" (inr (lines ["__ENV_START__"; "VITE_X=1"; "FOO=bar"]))
               (inr (Some "VITE_API_URL=http://localhost:3000")))
            (state_of [("PATH", "/bin")])).1 !! "VITE_API_URL" = None
  ∧ JS.truthy (penv (state_of [("VITE_DEV_SERVER_URL", "http://localhost:5173")])
               !! "VITE_DEV_SERVER_URL") = true.
Proof.
  split; [|split; [|split]].
  - exact (proj1 (C2_prefix_filter
      (world "darwin" (inr (lines ["__ENV_START__"; "VITE_X=1"; "FOO=bar"])) (inr None))
      (state_of [("PATH", "/bin")]) "VITE_X") eq_refl).
  - refine (proj2 (proj2 (proj1 (proj2 (C2_prefix_filter
      (world "darwin" (inl (Timeout "ETIMEDOUT")) (inr None))
      (state_of [("PATH", "/bin")]) "PATH")) _))).
    vm_compute. eauto.
  - exact (proj1 (proj1 (proj2 (proj2 (C2_prefix_filter
      (world "darwin" (inr (lines ["__ENV_START__"; "VITE_X=1"; "FOO=bar"]))
         (inr (Some "VITE_API_URL=http://localhost:3000")))
      (state_of [("PATH", "/bin")]) "VITE_API_URL"))) eq_refl eq_refl)).
  - refine (proj1 (proj2 (proj2 (proj2 (C2_prefix_filter
      (world "darwin" (inr "") (inr (Some "VITE_API_URL=http://localhost:3000")))
      (state_of [("VITE_DEV_SERVER_URL", "http://localhost:5173")])
      "VITE_API_URL"))) eq_refl eq_refl _)).
    vm_compute. eauto.
Defined.

(** ** Failure of the shell invocation and the fallback PATH *)

(** C3, as stated, fails where the marker is missing from stdout: the
    shell ran, nothing is thrown, and the fallback PATH is not written. *)
Lemma C3_counterexample :
  ¬ (∀ w st output,
       platform w = "darwin" →
       JS.truthy (penv st !! "VITE_DEV_SERVER_URL") = false →
       shell_outcome w (penv st) = inr output →
       JS.indexOf output "__ENV_START__" = (-1)%Z →
       penv (loadShellEnv w st).1 = <["PATH" := fallback_path (penv st)]> (penv st)).
Proof.
  intros H.
  specialize (H (world "darwin" (inr "Last login: Mon Nov  2 on ttys000") (inr None))
                (state_of [("PATH", "/usr/bin:/bin")])
                "Last login: Mon Nov  2 on ttys000" eq_refl eq_refl eq_refl eq_refl).
  apply (f_equal (λ env, env !! "PATH")) in H.
  vm_compute in H. discriminate.
Qed.

(** C3, amended: when the shell invocation throws (spawn error, non-zero
    exit, timeout) [loadShellEnv] returns normally and writes the fallback
    PATH; when the shell ran and the marker is missing from its stdout,
    the output counts as an empty environment section: the loader returns
    normally, the table is left as it was and no fallback PATH is
    written. *)
Theorem C3_failure_handling w st :
  platform w = "darwin" →
  JS.truthy (penv st !! "VITE_DEV_SERVER_URL") = false →
  (∀ e, shell_outcome w (penv st) = inl e →
     (loadShellEnv w st).2 = Normal tt
     ∧ penv (loadShellEnv w st).1 = <["PATH" := fallback_path (penv st)]> (penv st))
  ∧ (∀ output, shell_outcome w (penv st) = inr output →
     JS.indexOf output "__ENV_START__" = (-1)%Z →
     (loadShellEnv w st).2 = Normal tt
     ∧ penv (loadShellEnv w st).1 = penv st).
Proof.
  intros Hplat Hdev.
  rewrite loadShellEnv_returns, loadShellEnv_env.
  split.
  - intros e Hfail. by rewrite (shell_result_fail w _ e).
  - intros output Hok Habsent.
    by rewrite (shell_result_ok w _ output), shell_entries_absent.
Qed.

Lemma C3_failure_handling_witness :
  ((loadShellEnv (world "darwin" (inl (SpawnFailure "spawnSync /bin/zsh ENOENT")) (inr None))
      (state_of [("PATH", "/usr/bin:/bin")])).2 = Normal tt
   ∧ penv (loadShellEnv (world "darwin" (inl (SpawnFailure "spawnSync /bin/zsh ENOENT")) (inr None))
             (state_of [("PATH", "/usr/bin:/bin")])).1
     = <["PATH" := fallback_path (penv (state_of [("PATH", "/usr/bin:/bin")]))]>
         (penv (state_of [("PATH", "/usr/bin:/bin")])))
  ∧ ((loadShellEnv (world "darwin" (inr "Last login: Mon Nov  2 on ttys000") (inr None))
        (state_of [("PATH", "/usr/bin:/bin")])).2 = Normal tt
     ∧ penv (loadShellEnv (world "darwin" (inr "Last login: Mon Nov  2 on ttys000") (inr None))
               (state_of [("PATH", "/usr/bin:/bin")])).1
       = penv (state_of [("PATH", "/usr/bin:/bin")])).
Proof.
  split.
  - exact (proj1 (C3_failure_handling
      (world "darwin" (inl (SpawnFailure "spawnSync /bin/zsh ENOENT")) (inr None))
      (state_of [("PATH", "/usr/bin:/bin")]) eq_refl eq_refl)
      (SpawnFailure "spawnSync /bin/zsh ENOENT") eq_refl).
  - exact (proj2 (C3_failure_handling
      (world "darwin" (inr "Last login: Mon Nov  2 on ttys000") (inr None))
      (state_of [("PATH", "/usr/bin:/bin")]) eq_refl eq_refl)
      "Last login: Mon Nov  2 on ttys000" eq_refl eq_refl).
Defined.

(** ** Text after a second marker *)

(** C4 fails on the code: [split] cuts the captured output at every
    marker and only the piece between the first and the second one is
    read, so a well-formed line after a second occurrence of the marker is
    not merged. Here the shell exports a variable whose value is the
    marker itself; [FOO] is merged, [NOTE] is merged with its value cut
    off, and [PATH], on the next line, is not merged. *)
Theorem C4_second_marker_drops_lines :
  let output :=
    lines ["__ENV_START__"; "FOO=bar"; "NOTE=__ENV_START__"; "PATH=/a:/b"] in
  let st' :=
    (loadShellEnv (world "darwin" (inr output) (inr None)) (state_of [])).1 in
  "PATH=/a:/b" ∈ JS.split output LF
  ∧ shell_entry "PATH=/a:/b" = Some ("PATH", "/a:/b")
  ∧ shell_entries output = [("FOO", "bar"); ("NOTE", "")]
  ∧ penv st' !! "FOO" = Some "bar"
  ∧ penv st' !! "PATH" = None.
Proof.
  repeat split; try reflexivity.
  vm_compute JS.split. set_solver.
Qed.

(** ** The merge of the shell output *)

(** C6: when the shell ran, the table is the starting table with every
    entry parsed from the output and not skipped written into it in
    order, whatever the table held before; so a key ends with the value
    of its last such entry, and a key without one keeps what it had. A
    line made of a non-empty key without [=], an [=] and a value parses
    to that key and that value when the key is not skipped. With
    PATH=/bin before and PATH=/usr/local/bin:/bin from the shell, PATH
    ends as /usr/local/bin:/bin. *)
Theorem C6_shell_merge_overwrites w st output :
  platform w = "darwin" →
  JS.truthy (penv st !! "VITE_DEV_SERVER_URL") = false →
  shell_outcome w (penv st) = inr output →
  penv (loadShellEnv w st).1 = foldl write (penv st) (shell_entries output)
  ∧ (∀ before k v after,
       shell_entries output = before ++ (k, v) :: after → k ∉ after.*1 →
       penv (loadShellEnv w st).1 !! k = Some v)
  ∧ (∀ k, k ∉ (shell_entries output).*1 →
       penv (loadShellEnv w st).1 !! k = penv st !! k)
  ∧ (∀ k v, k ≠ "" → JS.indexOf k "=" = (-1)%Z → shouldSkipEnvVar k = false →
       shell_entry (k +:+ "=" +:+ v) = Some (k, v)).
Proof.
  intros Hplat Hdev Hok.
  rewrite loadShellEnv_env, (shell_result_ok w _ output) by done.
  split; [done|split; [|split]].
  - intros before k v after -> Hlast. by apply foldl_write_last.
  - intros k Hk. by apply foldl_write_other.
  - apply shell_entry_well_formed.
Qed.

Lemma C6_shell_merge_overwrites_witness :
  penv (state_of [("PATH", "/bin")]) !! "PATH" = Some "/bin"
  ∧ penv (loadShellEnv
            (world "darwin" (inr (lines ["__ENV_START__"; "PATH=/usr/local/bin:/bin"])) (inr None))
            (state_of [("PATH", "/bin")])).1 !! "PATH"
    = Some "/usr/local/bin:/bin".
Proof.
  split; [reflexivity|].
  refine (proj1 (proj2 (C6_shell_merge_overwrites
    (world "darwin" (inr (lines ["__ENV_START__"; "PATH=/usr/local/bin:/bin"])) (inr None))
    (state_of [("PATH", "/bin")])
    (lines ["__ENV_START__"; "PATH=/usr/local/bin:/bin"]) eq_refl eq_refl eq_refl))
    [] "PATH" "/usr/local/bin:/bin" [] eq_refl _).
  apply not_elem_of_nil.
Defined.

(** ** The merge of the [.env] file *)

Lemma truthy_is_Some (o : JS.value) : JS.truthy o = true → is_Some o.
Proof. destruct o; [by eexists|done]. Qed.

Lemma dotenv_result_truthy w env k :
  JS.truthy (env !! k) = true → dotenv_result w env !! k = env !! k.
Proof.
  intros Hk. unfold dotenv_result.
  destruct (negb _); [done|].
  destruct (dotenv_file w) as [e|[envContent|]]; [done| |done].
  rewrite foldl_write_if_unset_own by (right; by apply truthy_is_Some).
  by apply settle_truthy.
Qed.

Lemma dotenv_result_lookup w env envContent k :
  JS.truthy (env !! "VITE_DEV_SERVER_URL") = true →
  dotenv_file w = inr (Some envContent) →
  dotenv_result w env !! k
  = if bool_decide (env !! k = None) && bool_decide (k ∈ JS.Object_prototype)
    then None
    else settle (env !! k) (values_of k (dotenv_entries envContent)).
Proof.
  intros Hdev Hfile. unfold dotenv_result. rewrite Hdev, Hfile; simpl.
  apply foldl_write_if_unset_lookup.
Qed.








(** ** Quotes around a value *)




(** ** No exception reaches the caller *)

Lemma shell_try_throws w st e :
  shell_outcome w (penv st) = inl e →
  shell_try w (shell_of (penv st)) st = (st, Throw e).
Proof.
  unfold shell_outcome, shell_try. intros Hfail. run_effects. by rewrite Hfail.
Qed.

Lemma dotenv_try_throws w st e :
  dotenv_file w = inl e → dotenv_try w st = (st, Throw e).
Proof.
  unfold dotenv_file, dotenv_try. run_effects.
  destruct (cwd w) as [e'|dir]; simpl; [by intros [= ->]|].
  destruct (existsSync w _); simpl; [|done].
  destruct (readFileSync w _) as [e'|envContent]; simpl; [by intros [= ->]|done].
Qed.

(** C9: on every platform, from every state and whatever the shell
    invocation and the file system answer, both loaders end normally.
    Where the [try] block of the shell loader ends in an exception, the
    loader writes the fallback PATH; where the [try] block of the [.env]
    loader ends in one, the loader leaves the table as it was. *)
Theorem C9_loaders_never_throw w st :
  (loadShellEnv w st).2 = Normal tt
  ∧ (loadDotEnv w st).2 = Normal tt
  ∧ (∀ e, platform w = "darwin" →
       JS.truthy (penv st !! "VITE_DEV_SERVER_URL") = false →
       shell_outcome w (penv st) = inl e →
       (shell_try w (shell_of (penv st)) st).2 = Throw e
       ∧ penv (loadShellEnv w st).1 = <["PATH" := fallback_path (penv st)]> (penv st))
  ∧ (∀ e, dotenv_file w = inl e →
       (dotenv_try w st).2 = Throw e
       ∧ penv (loadDotEnv w st).1 = penv st).
Proof.
  split; [apply loadShellEnv_returns|].
  split; [apply loadDotEnv_returns|].
  split.
  - intros e Hplat Hdev Hfail.
    rewrite (shell_try_throws w st e), loadShellEnv_env by done.
    split; [done|]. by apply (shell_result_fail w _ e).
  - intros e Hfile.
    rewrite (dotenv_try_throws w st e), loadDotEnv_env by done.
    split; [done|]. unfold dotenv_result. rewrite Hfile. by destruct (negb _).
Qed.

Lemma C9_loaders_never_throw_witness :
  ((shell_try (world "darwin" (inl (Timeout "spawnSync /bin/zsh ETIMEDOUT")) (inr None))
      (shell_of (penv (state_of [("PATH", "/bin")]))) (state_of [("PATH", "/bin")])).2
   = Throw (Timeout "spawnSync /bin/zsh ETIMEDOUT")
   ∧ penv (loadShellEnv (world "darwin" (inl (Timeout "spawnSync /bin/zsh ETIMEDOUT")) (inr None))
             (state_of [("PATH", "/bin")])).1
     = <["PATH" := fallback_path (penv (state_of [("PATH", "/bin")]))]>
         (penv (state_of [("PATH", "/bin")])))
  ∧ ((dotenv_try (world "linux" (inr "") (inl (FileReadFailure "EACCES: permission denied")))
        (state_of [("VITE_DEV_SERVER_URL", "http://localhost:5173")])).2
     = Throw (FileReadFailure "EACCES: permission denied")
     ∧ penv (loadDotEnv (world "linux" (inr "") (inl (FileReadFailure "EACCES: permission denied")))
               (state_of [("VITE_DEV_SERVER_URL", "http://localhost:5173")])).1
       = penv (state_of [("VITE_DEV_SERVER_URL", "http://localhost:5173")])).
Proof.
  split.
  - exact (proj1 (proj2 (proj2 (C9_loaders_never_throw
      (world "darwin" (inl (Timeout "spawnSync /bin/zsh ETIMEDOUT")) (inr None))
      (state_of [("PATH", "/bin")]))))
      (Timeout "spawnSync /bin/zsh ETIMEDOUT") eq_refl eq_refl eq_refl).
  - exact (proj2 (proj2 (proj2 (C9_loaders_never_throw
      (world "linux" (inr "") (inl (FileReadFailure "EACCES: permission denied")))
      (state_of [("VITE_DEV_SERVER_URL", "http://localhost:5173")]))))
      (FileReadFailure "EACCES: permission denied") eq_refl).
Defined.

(** * Further properties of the loaders *)

(** ** The gates of [loadShellEnv] *)

(** X1: on a platform other than darwin [loadShellEnv] changes nothing,
    neither the table nor the log; on darwin with the development marker
    set it leaves the table as it is and logs one record. *)
Theorem loadShellEnv_gates w st :
  (platform w ≠ "darwin" → loadShellEnv w st = (st, Normal tt))
  ∧ (platform w = "darwin" →
     JS.truthy (penv st !! "VITE_DEV_SERVER_URL") = true →
     loadShellEnv w st
     = (mkState (penv st)
          (logs st ++ [(Info, "[shell-env] Skipping in dev mode (already have shell environment)")]),
        Normal tt)).
Proof.
  unfold loadShellEnv. split.
  - intros Hplat. apply String.eqb_neq in Hplat. by rewrite Hplat.
  - intros -> Hdev. unfold mbind, M_bind, getenv; simpl. by rewrite Hdev.
Qed.

Lemma loadShellEnv_gates_witness :
  loadShellEnv (world "linux" (inr "__ENV_START__") (inr None)) (state_of [("PATH", "/bin")])
  = (state_of [("PATH", "/bin")], Normal tt)
  ∧ (loadShellEnv (world "darwin" (inr "__ENV_START__") (inr None))
       (state_of [("VITE_DEV_SERVER_URL", "http://localhost:5173")])).2 = Normal tt.
Proof.
  split.
  - apply (proj1 (loadShellEnv_gates _ _)). discriminate.
  - rewrite (proj2 (loadShellEnv_gates _ _)); reflexivity.
Defined.

(** ** What the shell loader logs *)

Lemma for_of_shell_line_count lines : ∀ count st,
  for_of lines shell_line count st =
    (mkState (foldl write (penv st) (omap shell_entry lines)) (logs st),
     Normal (count + length (omap shell_entry lines))).
Proof.
  induction lines as [|line lines IH]; intros count st; simpl.
  - by rewrite state_eta, Nat.add_0_r.
  - unfold mbind, M_bind. rewrite shell_line_run.
    destruct (shell_entry line) as [kv|]; simpl.
    + rewrite (IH (S count) (mkState (write (penv st) kv) (logs st))); simpl.
      by rewrite Nat.add_succ_r.
    + apply IH.
Qed.

(** X2: when the shell ran, the loader logs the shell it used, the
    number of entries it merged (one per line that parsed and was not
    skipped, repeated keys counted each time) and, if PATH is then set
    and not empty, the number of pieces of PATH between colons. *)
Theorem loadShellEnv_success_log w st output :
  platform w = "darwin" →
  JS.truthy (penv st !! "VITE_DEV_SERVER_URL") = false →
  shell_outcome w (penv st) = inr output →
  let env' := foldl write (penv st) (shell_entries output) in
  loadShellEnv w st
  = (mkState env'
       (logs st
        ++ [ (Info, "[shell-env] Loading environment from " +:+ shell_of (penv st));
             (Info, "[shell-env] Loaded " +:+ pretty (length (shell_entries output))
                    +:+ " environment variables") ]
        ++ (if JS.truthy (env' !! "PATH")
            then [(Info, "[shell-env] PATH has "
                         +:+ pretty (length (JS.split (default "" (env' !! "PATH")) ":"))
                         +:+ " entries")]
            else [])),
     Normal tt).
Proof.
  intros Hplat Hdev Hok env'. unfold loadShellEnv.
  rewrite Hplat. unfold mbind at 1, M_bind at 1, getenv at 1; simpl.
  rewrite Hdev. unfold shell_outcome, shell_of in Hok.
  unfold shell_try. run_effects. rewrite Hok; simpl.
  rewrite for_of_shell_line_count; simpl.
  fold (env_section output). fold (shell_entries output). fold env'.
  destruct (JS.truthy (env' !! "PATH")); simpl;
    by rewrite <- ?app_assoc.
Qed.

Lemma loadShellEnv_success_log_witness :
  logs (loadShellEnv
          (world "darwin"
             (inr (lines ["__ENV_START__"; "A=1"; "A=2"; "VITE_X=1"; "novalue"]))
             (inr None))
          (state_of [("SHELL", "/bin/bash")])).1
  = [ (Info, "[shell-env] Loading environment from /bin/bash");
      (Info, "[shell-env] Loaded 2 environment variables") ].
Proof.
  rewrite (loadShellEnv_success_log
    (world "darwin"
       (inr (lines ["__ENV_START__"; "A=1"; "A=2"; "VITE_X=1"; "novalue"]))
       (inr None))
    (state_of [("SHELL", "/bin/bash")])
    (lines ["__ENV_START__"; "A=1"; "A=2"; "VITE_X=1"; "novalue"])
    eq_refl eq_refl eq_refl).
  reflexivity.
Defined.

(** X3: when the shell invocation throws, the loader logs the shell it
    tried and two warnings, the first with the text of the exception. *)
Theorem loadShellEnv_failure_log w st e :
  platform w = "darwin" →
  JS.truthy (penv st !! "VITE_DEV_SERVER_URL") = false →
  shell_outcome w (penv st) = inl e →
  loadShellEnv w st
  = (mkState (<["PATH" := fallback_path (penv st)]> (penv st))
       (logs st
        ++ [ (Info, "[shell-env] Loading environment from " +:+ shell_of (penv st));
             (Warn, "[shell-env] Failed to load shell environment: " +:+ error_text e);
             (Warn, "[shell-env] Adding common paths as fallback") ]),
     Normal tt).
Proof.
  intros Hplat Hdev Hfail. unfold loadShellEnv.
  rewrite Hplat. unfold mbind at 1, M_bind at 1, getenv at 1; simpl.
  rewrite Hdev. unfold shell_outcome, shell_of in Hfail.
  unfold shell_try. run_effects. rewrite Hfail; simpl.
  unfold shell_fallback. run_effects.
  by rewrite <- !app_assoc.
Qed.

Lemma loadShellEnv_failure_log_witness :
  logs (loadShellEnv (world "darwin" (inl (Timeout "spawnSync /bin/zsh ETIMEDOUT")) (inr None))
          (state_of [])).1
  = [ (Info, "[shell-env] Loading environment from /bin/zsh");
      (Warn, "[shell-env] Failed to load shell environment: Error: spawnSync /bin/zsh ETIMEDOUT");
      (Warn, "[shell-env] Adding common paths as fallback") ].
Proof.
  rewrite (loadShellEnv_failure_log
    (world "darwin" (inl (Timeout "spawnSync /bin/zsh ETIMEDOUT")) (inr None))
    (state_of []) (Timeout "spawnSync /bin/zsh ETIMEDOUT") eq_refl eq_refl eq_refl).
  reflexivity.
Defined.

(** ** What the shell loader asks of the system *)

(** X4: the shell loader consults the system for the platform and for
    one command only, the login shell with the seven-variable child
    environment: two systems that agree on these give the same result,
    whatever their working directory and files are. *)
Theorem loadShellEnv_single_invocation w1 w2 st :
  platform w1 = platform w2 →
  execSync w1 (shell_of (penv st) +:+ " -l -i -c 'echo __ENV_START__ && env'")
    (child_env (penv st !! "HOME") (penv st !! "USER") (penv st !! "TMPDIR")
       (shell_of (penv st)))
  = execSync w2 (shell_of (penv st) +:+ " -l -i -c 'echo __ENV_START__ && env'")
      (child_env (penv st !! "HOME") (penv st !! "USER") (penv st !! "TMPDIR")
         (shell_of (penv st))) →
  loadShellEnv w1 st = loadShellEnv w2 st.
Proof.
  intros Hplat Hexec. unfold loadShellEnv. rewrite Hplat.
  destruct (negb _); [done|].
  unfold shell_try, shell_of in *. run_effects.
  destruct (JS.truthy (penv st !! "VITE_DEV_SERVER_URL")); [done|].
  by rewrite Hexec.
Qed.

Lemma loadShellEnv_single_invocation_witness :
  loadShellEnv (world "darwin" (inr (lines ["__ENV_START__"; "A=1"])) (inr None))
    (state_of [("PATH", "/bin")])
  = loadShellEnv (world "darwin" (inr (lines ["__ENV_START__"; "A=1"])) (inr (Some "B=2")))
      (state_of [("PATH", "/bin")]).
Proof.
  apply loadShellEnv_single_invocation; reflexivity.
Defined.

(** ** Lines of the shell output *)

Lemma indexOf_char_found s c : ∀ i r,
  JS.indexOf_from s (String c "") i = r → r ≠ (-1)%Z → (0 ≤ i)%Z →
  ∃ k rest, s = k +:+ String c rest ∧ r = (i + JS.len k)%Z
            ∧ JS.indexOf k (String c "") = (-1)%Z.
Proof.
  induction s as [|a s IH]; intros i r Hr Hfound Hi.
  - simpl in Hr. congruence.
  - cbn [JS.indexOf_from] in Hr.
    destruct (JS.startsWith (String a s) (String c "")) eqn:Hstart.
    + apply startsWith_char in Hstart as [t [= -> ->]].
      exists "", t. subst r. repeat split. unfold JS.len; simpl. lia.
    + destruct (IH (i + 1)%Z r Hr Hfound ltac:(lia)) as (k & rest & -> & -> & Hk).
      exists (String a k), rest. repeat split.
      * unfold JS.len; simpl String.length. lia.
      * unfold JS.indexOf. cbn [JS.indexOf_from].
        change (JS.startsWith (String a k) (String c ""))
          with (JS.startsWith (String a (k +:+ String c rest)) (String c "")).
        rewrite Hstart. by apply (indexOf_from_shift k (String c "") 0 1).
Qed.

(** Parsing a line and putting key, [=] and value together again gives
    the line back. *)
Lemma shell_entry_inv line k v :
  shell_entry line = Some (k, v) →
  line = k +:+ "=" +:+ v ∧ k ≠ "" ∧ JS.indexOf k "=" = (-1)%Z
  ∧ shouldSkipEnvVar k = false.
Proof.
  unfold shell_entry. destruct (0 <? _)%Z eqn:Hpos; [|done].
  apply Z.ltb_lt in Hpos.
  destruct (indexOf_char_found line "=" 0 _ eq_refl ltac:(unfold JS.indexOf in Hpos; lia) ltac:(lia))
    as (k0 & rest & -> & Hidx & Hk0).
  unfold JS.indexOf in *. rewrite Hidx, Z.add_0_l in *.
  change (k0 +:+ String "=" rest) with (k0 +:+ "=" +:+ rest).
  rewrite substring_key, substring_from_value.
  destruct (shouldSkipEnvVar k0) eqn:Hskip; [done|].
  intros [= <- <-]. split; [done|]. split; [|by split].
  intros ->. unfold JS.len in Hpos. simpl in Hpos. lia.
Qed.

(** X5: what the loop of [loadShellEnv] does with one line. A line made
    of a non-empty key without [=], an [=] and a value writes the value
    under the key, unless the key begins with [VITE_], and counts one;
    the value may hold further [=] signs. Every other line (no [=], [=]
    in front, a key with the prefix) changes nothing. *)
Theorem shell_line_parses line count st :
  (∀ k v, line = k +:+ "=" +:+ v → k ≠ "" → JS.indexOf k "=" = (-1)%Z →
     shouldSkipEnvVar k = false →
     shell_line line count st
     = (mkState (<[k := v]> (penv st)) (logs st), Normal (S count)))
  ∧ ((∀ k v, line = k +:+ "=" +:+ v → k ≠ "" → JS.indexOf k "=" = (-1)%Z →
        shouldSkipEnvVar k = true) →
     shell_line line count st = (st, Normal count)).
Proof.
  rewrite shell_line_run. split.
  - intros k v -> Hne Hk Hskip. by rewrite shell_entry_well_formed.
  - intros Hnone. destruct (shell_entry line) as [[k v]|] eqn:Hentry; [|done].
    apply shell_entry_inv in Hentry as (-> & Hne & Hk & Hskip).
    rewrite (Hnone k v) in Hskip; done.
Qed.

Lemma shell_line_parses_witness :
  shell_line "JAVA_OPTS=-Dfile.encoding=UTF-8" 0 (state_of [])
  = (mkState (<["JAVA_OPTS" := "-Dfile.encoding=UTF-8"]> (penv (state_of []))) [],
     Normal 1)
  ∧ shell_line "=oops" 3 (state_of []) = (state_of [], Normal 3).
Proof.
  split.
  - apply (proj1 (shell_line_parses _ 0 (state_of [])) "JAVA_OPTS" "-Dfile.encoding=UTF-8");
      first [reflexivity | discriminate].
  - apply (proj2 (shell_line_parses _ 3 (state_of []))).
    intros k v Hline Hne Hk. destruct k as [|c k]; [done|].
    rewrite str_app_cons in Hline. injection Hline as <- _.
    vm_compute in Hk. discriminate Hk.
Defined.

(** ** Trimming *)

Lemma trimStart_head s c t : JS.trimStart s = String c t → JS.is_white c = false.
Proof.
  induction s as [|a s IH]; [done|]. simpl.
  destruct (JS.is_white a) eqn:Ha; [done|]. by intros [= <- _].
Qed.

Lemma trimStart_nonwhite c t :
  JS.is_white c = false → JS.trimStart (String c t) = String c t.
Proof. intros Hc. simpl. by rewrite Hc. Qed.

Lemma trimStart_idem s : JS.trimStart (JS.trimStart s) = JS.trimStart s.
Proof.
  destruct (JS.trimStart s) as [|c t] eqn:Hs; [done|].
  apply trimStart_nonwhite. by apply (trimStart_head s c t).
Qed.

Lemma trimStart_app_nonwhite a c b :
  JS.is_white c = false →
  JS.trimStart (a +:+ String c b) = JS.trimStart a +:+ String c b.
Proof.
  intros Hc. induction a as [|x a IH].
  - change ("" +:+ String c b) with (String c b). by rewrite trimStart_nonwhite.
  - rewrite str_app_cons. simpl. destruct (JS.is_white x); [done|].
    by rewrite str_app_cons.
Qed.

Lemma trimStart_app_blank ws s :
  JS.trimStart ws = "" → JS.trimStart (ws +:+ s) = JS.trimStart s.
Proof.
  induction ws as [|x ws IH]; [done|]. rewrite str_app_cons. simpl.
  destruct (JS.is_white x); [done|discriminate].
Qed.

Lemma trim_trimStart s : JS.trim s = JS.trim (JS.trimStart s).
Proof. unfold JS.trim. by rewrite trimStart_idem. Qed.

(** Trimming keeps a first character that is not white space. *)
Lemma trim_nonwhite_head c t :
  JS.is_white c = false →
  JS.trim (String c t) = String c (String.rev (JS.trimStart (String.rev t))).
Proof.
  intros Hc. unfold JS.trim.
  rewrite trimStart_nonwhite, str_rev_cons, trimStart_app_nonwhite by done.
  rewrite str_rev_app. reflexivity.
Qed.

Lemma trim_cases s :
  JS.trim s = ""
  ∨ ∃ c t, JS.is_white c = false ∧ JS.trimStart s = String c t
           ∧ JS.trim s = String c (String.rev (JS.trimStart (String.rev t))).
Proof.
  rewrite trim_trimStart.
  destruct (JS.trimStart s) as [|c t] eqn:Hs; [by left|].
  right. exists c, t.
  assert (JS.is_white c = false) by by apply (trimStart_head s c t).
  by rewrite trim_nonwhite_head.
Qed.


Lemma trim_idem s : JS.trim (JS.trim s) = JS.trim s.
Proof.
  destruct (trim_cases s) as [->|(c & t & Hc & _ & ->)]; [done|].
  by rewrite trim_nonwhite_head, str_rev_involutive, trimStart_idem.
Qed.

Lemma trim_blank_trimStart s : JS.trim s = "" → JS.trimStart s = "".
Proof.
  destruct (trim_cases s) as [H|(c & t & Hc & Hs & ->)]; [|done].
  intros _. destruct (JS.trimStart s) as [|c t] eqn:Hs; [done|].
  rewrite trim_trimStart, Hs, trim_nonwhite_head in H; [done|].
  by apply (trimStart_head s c t).
Qed.

(** ** Strings without a given character *)

Lemma absent_cons x s c :
  JS.indexOf (String x s) (String c "") = (-1)%Z
  ↔ x ≠ c ∧ JS.indexOf s (String c "") = (-1)%Z.
Proof.
  unfold JS.indexOf. cbn [JS.indexOf_from JS.startsWith].
  destruct (Ascii.eqb_spec c x) as [->|Hne].
  - split; [done|]. by intros [? _].
  - split.
    + intros H. split; [done|]. by apply (indexOf_from_shift s _ 1 0).
    + intros [_ H]. by apply (indexOf_from_shift s _ 0 1).
Qed.

Lemma absent_app a b c :
  JS.indexOf a (String c "") = (-1)%Z → JS.indexOf b (String c "") = (-1)%Z →
  JS.indexOf (a +:+ b) (String c "") = (-1)%Z.
Proof.
  intros Ha Hb. induction a as [|x a IH]; [done|].
  rewrite str_app_cons. apply absent_cons in Ha as [Hx Ha].
  apply absent_cons. split; [done|]. by apply IH.
Qed.

Lemma absent_rev s c :
  JS.indexOf s (String c "") = (-1)%Z →
  JS.indexOf (String.rev s) (String c "") = (-1)%Z.
Proof.
  induction s as [|x s IH]; [done|].
  intros [Hx Hs]%absent_cons. rewrite str_rev_cons.
  apply absent_app; [by apply IH|]. by apply absent_cons.
Qed.

Lemma absent_trimStart s c :
  JS.indexOf s (String c "") = (-1)%Z →
  JS.indexOf (JS.trimStart s) (String c "") = (-1)%Z.
Proof.
  induction s as [|x s IH]; [done|]. intros Hs. simpl.
  destruct (JS.is_white x); [|done].
  apply IH. by apply absent_cons in Hs as [_ Hs].
Qed.

Lemma absent_trim s c :
  JS.indexOf s (String c "") = (-1)%Z →
  JS.indexOf (JS.trim s) (String c "") = (-1)%Z.
Proof.
  intros Hs. unfold JS.trim.
  by apply absent_rev, absent_trimStart, absent_rev, absent_trimStart.
Qed.

(** ** Keys *)




(** ** Shell output around the marker *)

(** X7: what the shell prints before the first marker has no effect on
    the table: the output with the banner and the output without it are
    merged alike. If the marker occurs once, the lines merged are those
    of all the text after it, trimmed. *)
Theorem shell_banner_ignored w1 w2 st banner body :
  platform w1 = "darwin" → platform w2 = "darwin" →
  JS.truthy (penv st !! "VITE_DEV_SERVER_URL") = false →
  shell_outcome w1 (penv st) = inr (banner +:+ "__ENV_START__" +:+ body) →
  shell_outcome w2 (penv st) = inr ("__ENV_START__" +:+ body) →
  JS.indexOf (banner +:+ "__ENV_START__" +:+ body) "__ENV_START__" = JS.len banner →
  penv (loadShellEnv w1 st).1 = penv (loadShellEnv w2 st).1
  ∧ (JS.indexOf body "__ENV_START__" = (-1)%Z →
     penv (loadShellEnv w1 st).1
     = foldl write (penv st) (omap shell_entry (JS.split (JS.trim body) LF))).
Proof.
  intros Hp1 Hp2 Hdev Ho1 Ho2 Hidx.
  rewrite !loadShellEnv_env.
  rewrite (shell_result_ok w1 _ _ Hp1 Hdev Ho1), (shell_result_ok w2 _ _ Hp2 Hdev Ho2).
  split.
  - by rewrite shell_entries_banner.
  - intros Hbody. unfold shell_entries. by rewrite env_section_single.
Qed.

Lemma shell_banner_ignored_witness :
  penv (loadShellEnv
          (world "darwin"
             (inr ("Last login: Mon" +:+ LF +:+ "FAKE=1" +:+ LF
                   +:+ "__ENV_START__" +:+ LF +:+ "FOO=bar" +:+ LF))
             (inr None))
          (state_of [])).1
  = penv (loadShellEnv
            (world "darwin" (inr ("__ENV_START__" +:+ LF +:+ "FOO=bar" +:+ LF)) (inr None))
            (state_of [])).1.
Proof.
  refine (proj1 (shell_banner_ignored
    (world "darwin"
       (inr ("Last login: Mon" +:+ LF +:+ "FAKE=1" +:+ LF
             +:+ "__ENV_START__" +:+ LF +:+ "FOO=bar" +:+ LF))
       (inr None))
    (world "darwin" (inr ("__ENV_START__" +:+ LF +:+ "FOO=bar" +:+ LF)) (inr None))
    (state_of []) ("Last login: Mon" +:+ LF +:+ "FAKE=1" +:+ LF)
    (LF +:+ "FOO=bar" +:+ LF) eq_refl eq_refl eq_refl eq_refl eq_refl eq_refl)).
Defined.

(** ** The two loaders together *)

(** X8: run one after the other, at most one of the loaders changes the
    table: with the development marker set only [loadDotEnv] does, without
    it only [loadShellEnv]; the shell loader cannot set the marker, which
    carries the skipped prefix. *)
Theorem loadBoth_one_loader_acts w st :
  penv (loadBoth w st).1
  = if JS.truthy (penv st !! "VITE_DEV_SERVER_URL")
    then penv (loadDotEnv w st).1
    else penv (loadShellEnv w st).1.
Proof.
  rewrite loadBoth_env, loadDotEnv_env, loadShellEnv_env.
  destruct (JS.truthy (penv st !! "VITE_DEV_SERVER_URL")) eqn:Hdev.
  - f_equal. unfold shell_result. rewrite Hdev. by destruct (negb _).
  - unfold dotenv_result at 1.
    by rewrite shell_result_skipped, Hdev.
Qed.

(** ** Running [loadDotEnv] again *)

Lemma settle_idem current vs :
  settle (settle current vs) vs = settle current vs.
Proof.
  destruct (JS.truthy (settle current vs)) eqn:Hr; [by apply settle_truthy|].
  destruct (JS.truthy current) eqn:Hc.
  { rewrite (settle_truthy vs current Hc) in *. congruence. }
  destruct vs as [|v vs]; [done|].
  simpl in *. rewrite Hc in *. rewrite Hr.
  destruct (JS.truthy (Some v)) eqn:Hv; [|done].
  rewrite (settle_truthy vs (Some v) Hv) in Hr. congruence.
Qed.

(** X9: a second run of [loadDotEnv] in the same surroundings leaves
    the table of the first run as it is. *)
Theorem loadDotEnv_idempotent w st :
  penv (loadDotEnv w (loadDotEnv w st).1).1 = penv (loadDotEnv w st).1.
Proof.
  rewrite !loadDotEnv_env. set (env := penv st).
  destruct (JS.truthy (env !! "VITE_DEV_SERVER_URL")) eqn:Hdev.
  - assert (JS.truthy (dotenv_result w env !! "VITE_DEV_SERVER_URL") = true) as Hdev'.
    { by rewrite dotenv_result_truthy. }
    destruct (dotenv_file w) as [e|[envContent|]] eqn:Hfile.
    + unfold dotenv_result. by rewrite Hfile, !Tauto.if_same.
    + apply map_eq. intros k.
      rewrite (dotenv_result_lookup w _ envContent) by done.
      rewrite (dotenv_result_lookup w env envContent) by done.
      destruct (bool_decide (env !! k = None) && bool_decide (k ∈ JS.Object_prototype))
        eqn:Hshadow.
      * apply andb_true_iff in Hshadow as [_ Hproto].
        by rewrite bool_decide_eq_true_2, Hproto.
      * rewrite settle_idem.
        destruct (bool_decide (settle _ _ = None) && _) eqn:Hagain; [|done].
        apply andb_true_iff in Hagain as [Hnone%bool_decide_eq_true _]. done.
    + unfold dotenv_result. by rewrite Hfile, !Tauto.if_same.
  - assert (dotenv_result w env = env) as Hid.
    { unfold dotenv_result. by rewrite Hdev. }
    by rewrite !Hid.
Qed.

(** ** [loadDotEnv] without a readable file *)

(** X10: in a development run, a missing [.env] file is no failure: the
    table is left as it is, one information record names the path looked
    at, and the file is not read. A file that is there and cannot be read
    leaves the table as it is and logs one warning with the text of the
    exception. *)
Theorem loadDotEnv_without_file w st dir :
  JS.truthy (penv st !! "VITE_DEV_SERVER_URL") = true →
  cwd w = inr dir →
  (existsSync w (path_join w dir ".env") = false →
     loadDotEnv w st
     = (mkState (penv st)
          (logs st ++ [(Info, "[dotenv] No .env file found at " +:+ path_join w dir ".env")]),
        Normal tt))
  ∧ (∀ e, existsSync w (path_join w dir ".env") = true →
       readFileSync w (path_join w dir ".env") = inl e →
       loadDotEnv w st
       = (mkState (penv st)
            (logs st ++ [(Warn, "[dotenv] Failed to load .env file: " +:+ error_text e)]),
          Normal tt)).
Proof.
  intros Hdev Hcwd.
  split; [intros Hexists|intros e Hexists Hread];
    unfold loadDotEnv, dotenv_try; run_effects;
    rewrite Hdev, Hcwd; simpl; rewrite Hexists; simpl.
  - reflexivity.
  - rewrite Hread. reflexivity.
Qed.

Lemma loadDotEnv_without_file_witness :
  loadDotEnv (world "darwin" (inr "") (inr None))
    (state_of [("VITE_DEV_SERVER_URL", "http://localhost:5173")])
  = (mkState (penv (state_of [("VITE_DEV_SERVER_URL", "http://localhost:5173")]))
       [(Info, "[dotenv] No .env file found at /project/.env")],
     Normal tt).
Proof.
  exact (proj1 (loadDotEnv_without_file
    (world "darwin" (inr "") (inr None))
    (state_of [("VITE_DEV_SERVER_URL", "http://localhost:5173")])
    "/project" eq_refl eq_refl) eq_refl).
Defined.

(** ** Lines of the [.env] file that are passed over *)

Lemma dotenv_line_skip line count st :
  dotenv_entry line = None → dotenv_line line count st = (st, Normal count).
Proof.
  unfold dotenv_entry, dotenv_line.
  destruct (negb _ || _); [done|]. by destruct (0 <? _)%Z.
Qed.

(** X11: the loop of [loadDotEnv] passes over a blank line, a line
    whose first character after white space is [#], a line without [=]
    and a line whose first character after white space is [=]: none of
    them changes the table or the count. *)
Theorem dotenv_line_passes_over line count st :
  (JS.trim line = ""
   ∨ (∃ ws rest, JS.trim ws = "" ∧ line = ws +:+ "#" +:+ rest)
   ∨ JS.indexOf line "=" = (-1)%Z
   ∨ (∃ ws rest, JS.trim ws = "" ∧ line = ws +:+ "=" +:+ rest)) →
  dotenv_line line count st = (st, Normal count).
Proof.
  intros Hline. apply dotenv_line_skip. unfold dotenv_entry.
  destruct Hline as [Hb|[(ws & rest & Hws & ->)|[Habs|(ws & rest & Hws & ->)]]].
  - by rewrite Hb.
  - rewrite trim_trimStart, trimStart_app_blank by by apply trim_blank_trimStart.
    change ("#" +:+ rest) with (String "#" rest).
    by rewrite trimStart_nonwhite, trim_nonwhite_head.
  - destruct (negb _ || _); [done|].
    by rewrite (absent_trim line "=" Habs).
  - rewrite trim_trimStart, trimStart_app_blank by by apply trim_blank_trimStart.
    change ("=" +:+ rest) with (String "=" rest).
    by rewrite trimStart_nonwhite, trim_nonwhite_head.
Qed.

Lemma dotenv_line_passes_over_witness :
  dotenv_line "   # AWS_REGION=us-east-1" 4
    (state_of [("VITE_DEV_SERVER_URL", "http://localhost:5173")])
  = (state_of [("VITE_DEV_SERVER_URL", "http://localhost:5173")], Normal 4).
Proof.
  apply dotenv_line_passes_over.
  right. left. exists "   ", " AWS_REGION=us-east-1". split; reflexivity.
Defined.

(** ** Splitting and joining at a character *)

Lemma join_cons sep x l :
  l ≠ [] → JS.join sep (x :: l) = x +:+ sep +:+ JS.join sep l.
Proof. by destruct l. Qed.

Lemma join_app sep l1 l2 :
  l1 ≠ [] → l2 ≠ [] →
  JS.join sep (l1 ++ l2) = JS.join sep l1 +:+ sep +:+ JS.join sep l2.
Proof.
  intros H1 H2. induction l1 as [|x l1 IH]; [done|].
  destruct l1 as [|y l1].
  - simpl app. by rewrite join_cons.
  - rewrite <- app_comm_cons, !join_cons by done.
    rewrite IH by done. by rewrite !str_app_assoc.
Qed.

Lemma split_go_nonempty sep s : ∀ skip cur, JS.split_go sep skip cur s ≠ [].
Proof.
  induction s as [|a s IH]; intros skip cur; [done|].
  cbn [JS.split_go]. destruct skip; [|apply IH].
  destruct (JS.startsWith _ _); [done|apply IH].
Qed.

Lemma join_split_go c s : ∀ cur,
  JS.join (String c "") (JS.split_go (String c "") 0 cur s) = String.rev_app cur s.
Proof.
  induction s as [|a s IH]; intros cur; [done|].
  cbn [JS.split_go]. destruct (JS.startsWith _ _) eqn:Hstart.
  - apply startsWith_char in Hstart as [t [= -> ->]].
    rewrite join_cons by apply split_go_nonempty.
    simpl String.length. rewrite IH. simpl String.rev_app.
    by rewrite (rev_app_spec cur).
  - apply IH.
Qed.

(** Joining the pieces of a string with the separator gives the string
    back. *)
Lemma join_split c s : JS.join (String c "") (JS.split s (String c "")) = s.
Proof. apply join_split_go. Qed.

Lemma indexOf_from_absent_prefix k c v : ∀ i,
  JS.indexOf k (String c "") = (-1)%Z →
  JS.indexOf_from (k +:+ String c v) (String c "") i = (i + JS.len k)%Z.
Proof.
  induction k as [|x k IH]; intros i Hk.
  - change ("" +:+ String c v) with (String c v).
    cbn [JS.indexOf_from JS.startsWith]. rewrite Ascii.eqb_refl.
    unfold JS.len; simpl. lia.
  - apply absent_cons in Hk as [Hx Hk].
    rewrite str_app_cons. cbn [JS.indexOf_from JS.startsWith].
    destruct (Ascii.eqb_spec c x) as [->|_]; [done|].
    rewrite IH by done. unfold JS.len; simpl String.length. lia.
Qed.

Lemma split_cons_piece c x rest :
  JS.indexOf x (String c "") = (-1)%Z →
  JS.split (x +:+ String c "" +:+ rest) (String c "")
  = x :: JS.split rest (String c "").
Proof.
  intros Hx. unfold JS.split.
  rewrite (split_go_first (String c "") rest ltac:(done) x "" 0%Z); [done|].
  by apply indexOf_from_absent_prefix.
Qed.

(** Splitting the join of pieces that do not hold the separator gives
    the pieces back. *)
Lemma split_join c l :
  l ≠ [] → Forall (λ x, JS.indexOf x (String c "") = (-1)%Z) l →
  JS.split (JS.join (String c "") l) (String c "") = l.
Proof.
  intros Hne Hfree. induction l as [|x l IH]; [done|].
  apply Forall_cons in Hfree as [Hx Hfree].
  destruct l as [|y l].
  - simpl. by apply split_absent.
  - rewrite join_cons, split_cons_piece by done. f_equal. by apply IH.
Qed.

Lemma split_go_pieces_free c s : ∀ cur,
  JS.indexOf cur (String c "") = (-1)%Z →
  Forall (λ x, JS.indexOf x (String c "") = (-1)%Z)
    (JS.split_go (String c "") 0 cur s).
Proof.
  induction s as [|a s IH]; intros cur Hcur.
  - constructor; [by apply absent_rev|constructor].
  - cbn [JS.split_go JS.startsWith].
    destruct (Ascii.eqb_spec c a) as [->|Hne].
    + constructor; [by apply absent_rev|]. by apply IH.
    + apply IH. by apply absent_cons.
Qed.

Lemma split_pieces_free c s :
  Forall (λ x, JS.indexOf x (String c "") = (-1)%Z) (JS.split s (String c "")).
Proof. by apply split_go_pieces_free. Qed.

Lemma keep_first_NoDup_id l : NoDup l → keep_first l = l.
Proof.
  induction l as [|x l IH]; [done|]. intros [Hx Hl]%NoDup_cons. simpl.
  rewrite IH by done. f_equal. apply filter_all. by intros y Hy ->.
Qed.

Lemma filter_none (P : string → Prop) `{!∀ x, Decision (P x)} (l : list string) :
  (∀ x, x ∈ l → ¬ P x) → filter P l = [].
Proof.
  induction l as [|x l IH]; intros Hall; [done|].
  rewrite filter_cons_False by (apply Hall; left).
  apply IH. intros y Hy. apply Hall. by right.
Qed.

(** ** The fallback PATH, again *)

Lemma fallback_path_shape env :
  fallback_path env
  = JS.join ":"
      (fallbackPaths (env !! "HOME")
       ++ filter (λ x, x ∉ fallbackPaths (env !! "HOME"))
            (keep_first (JS.split (JS.or_else (env !! "PATH") "/usr/bin:/bin:/usr/sbin:/sbin") ":"))).
Proof.
  unfold fallback_path.
  by rewrite dedupe_keep_first, keep_first_app by apply fallbackPaths_NoDup.
Qed.

(** X12: when the current PATH has no entry twice and none of the
    fallback directories, the fallback writes the fallback directories,
    a colon and the current PATH as it was. *)
Theorem fallback_prepends w st e :
  platform w = "darwin" →
  JS.truthy (penv st !! "VITE_DEV_SERVER_URL") = false →
  shell_outcome w (penv st) = inl e →
  let currentPath := JS.or_else (penv st !! "PATH") "/usr/bin:/bin:/usr/sbin:/sbin" in
  NoDup (JS.split currentPath ":") →
  (∀ x, x ∈ fallbackPaths (penv st !! "HOME") → x ∉ JS.split currentPath ":") →
  penv (loadShellEnv w st).1 !! "PATH"
  = Some (JS.join ":" (fallbackPaths (penv st !! "HOME")) +:+ ":" +:+ currentPath).
Proof.
  intros Hplat Hdev Hfail currentPath Hnodup Hfresh.
  rewrite loadShellEnv_env, (shell_result_fail w _ e), lookup_insert_eq by done.
  rewrite fallback_path_shape. fold currentPath.
  rewrite keep_first_NoDup_id by done.
  rewrite filter_all by (intros x Hx Hin; by apply (Hfresh x)).
  rewrite join_app; [|done|apply split_go_nonempty].
  by rewrite join_split.
Qed.

Lemma fallback_prepends_witness :
  penv (loadShellEnv (world "darwin" (inl (SpawnFailure "spawnSync /bin/zsh ENOENT")) (inr None))
          (state_of [("HOME", "/Users/u"); ("PATH", "/usr/bin:/bin")])).1 !! "PATH"
  = Some (JS.join ":" (fallbackPaths (Some "/Users/u")) +:+ ":" +:+ "/usr/bin:/bin").
Proof.
  refine (fallback_prepends
    (world "darwin" (inl (SpawnFailure "spawnSync /bin/zsh ENOENT")) (inr None))
    (state_of [("HOME", "/Users/u"); ("PATH", "/usr/bin:/bin")])
    (SpawnFailure "spawnSync /bin/zsh ENOENT") eq_refl eq_refl eq_refl _ _).
  - compute_done.
  - apply Forall_forall. compute_done.
Defined.

Lemma fallbackPaths_free home :
  JS.indexOf (JS.template home) ":" = (-1)%Z →
  Forall (λ x, JS.indexOf x ":" = (-1)%Z) (fallbackPaths home).
Proof.
  intros Hhome. unfold fallbackPaths.
  repeat (constructor; [first [reflexivity | by apply absent_app]|]).
  constructor.
Qed.

Lemma fallback_path_nonempty env : JS.truthy (Some (fallback_path env)) = true.
Proof.
  rewrite fallback_path_shape. unfold fallbackPaths.
  rewrite <- !app_comm_cons, join_cons by done.
  reflexivity.
Qed.

(** ** The fallback PATH against its specification *)

(** C5, as stated, fails in two ways. For the empty PATH the entries that
    follow the fallback directories are those of the default
    [/usr/bin:/bin:/usr/sbin:/sbin], not those of the PATH that was set.
    And when [HOME] holds a colon the directories built from it fall into
    pieces in the PATH written: with [HOME] set to [/usr/local/bin:/x]
    the entry [/usr/local/bin] is there four times. *)
Lemma C5_counterexample :
  ¬ (∀ w st e p,
       platform w = "darwin" →
       JS.truthy (penv st !! "VITE_DEV_SERVER_URL") = false →
       shell_outcome w (penv st) = inl e →
       penv st !! "PATH" = Some p →
       JS.split (default "" (penv (loadShellEnv w st).1 !! "PATH")) ":"
       = fallbackPaths (penv st !! "HOME")
         ++ filter (λ x, x ∉ fallbackPaths (penv st !! "HOME"))
              (keep_first (JS.split p ":")))
  ∧ ¬ (∀ w st e p,
       platform w = "darwin" →
       JS.truthy (penv st !! "VITE_DEV_SERVER_URL") = false →
       shell_outcome w (penv st) = inl e →
       penv st !! "PATH" = Some p →
       p ≠ "" →
       JS.split (default "" (penv (loadShellEnv w st).1 !! "PATH")) ":"
       = fallbackPaths (penv st !! "HOME")
         ++ filter (λ x, x ∉ fallbackPaths (penv st !! "HOME"))
              (keep_first (JS.split p ":"))).
Proof.
  split; intros H.
  - specialize (H (world "darwin" (inl (Timeout "spawnSync /bin/zsh ETIMEDOUT")) (inr None))
                  (state_of [("HOME", "/Users/u"); ("PATH", "")])
                  (Timeout "spawnSync /bin/zsh ETIMEDOUT") "" eq_refl eq_refl eq_refl eq_refl).
    vm_compute in H. discriminate.
  - specialize (H (world "darwin" (inl (Timeout "spawnSync /bin/zsh ETIMEDOUT")) (inr None))
                  (state_of [("HOME", "/usr/local/bin:/x"); ("PATH", "/usr/bin:/bin")])
                  (Timeout "spawnSync /bin/zsh ETIMEDOUT") "/usr/bin:/bin"
                  eq_refl eq_refl eq_refl eq_refl ltac:(discriminate)).
    vm_compute in H. discriminate.
Qed.

(** C5, amended: when the fallback branch runs, the PATH written is the
    [:]-join of the seven fallback directories, in declared order,
    followed by the entries of the current PATH that are not fallback
    directories, duplicates removed and first occurrences kept; no entry
    of that list is repeated. When [HOME] holds no colon (or is unset),
    the PATH written, split at its colons, is that list: each fallback
    directory is in it exactly once. The current PATH is the pre-existing
    PATH when that is non-empty and [/usr/bin:/bin:/usr/sbin:/sbin] when
    PATH is unset or empty. No key other than PATH changes. *)
Theorem C5_fallback_path w st e :
  platform w = "darwin" →
  JS.truthy (penv st !! "VITE_DEV_SERVER_URL") = false →
  shell_outcome w (penv st) = inl e →
  let F := fallbackPaths (penv st !! "HOME") in
  let currentPath := JS.or_else (penv st !! "PATH") "/usr/bin:/bin:/usr/sbin:/sbin" in
  let rest := filter (λ x, x ∉ F) (keep_first (JS.split currentPath ":")) in
  penv (loadShellEnv w st).1 !! "PATH" = Some (JS.join ":" (F ++ rest))
  ∧ NoDup (F ++ rest)
  ∧ (JS.indexOf (JS.template (penv st !! "HOME")) ":" = (-1)%Z →
     JS.split (default "" (penv (loadShellEnv w st).1 !! "PATH")) ":" = F ++ rest)
  ∧ (∀ p, penv st !! "PATH" = Some p → p ≠ "" → currentPath = p)
  ∧ (JS.truthy (penv st !! "PATH") = false →
       currentPath = "/usr/bin:/bin:/usr/sbin:/sbin")
  ∧ (∀ k, k ≠ "PATH" → penv (loadShellEnv w st).1 !! k = penv st !! k).
Proof.
  intros Hplat Hdev Hfail F currentPath rest.
  rewrite loadShellEnv_env, (shell_result_fail w _ e) by done.
  rewrite lookup_insert_eq, fallback_path_shape.
  fold F. fold currentPath. fold rest.
  split; [done|]. split; [|split; [|split; [|split]]].
  - apply NoDup_app. split; [apply fallbackPaths_NoDup|]. split.
    + intros x Hx [Hnot _]%list_elem_of_filter. done.
    + apply NoDup_filter, keep_first_NoDup.
  - intros Hhome.
    change (JS.split (JS.join ":" (F ++ rest)) ":" = F ++ rest).
    apply split_join; [done|].
    apply Forall_app. split; [by apply fallbackPaths_free|].
    apply Forall_forall. intros x [_ Hx]%list_elem_of_filter.
    apply (proj1 (keep_first_elem _ _)) in Hx.
    exact (proj1 (Forall_forall _ _) (split_pieces_free ":" _) x Hx).
  - intros p Hp Hne. unfold currentPath. rewrite Hp. by destruct p.
  - intros Hpath. unfold currentPath.
    destruct (penv st !! "PATH") as [[|c p]|]; done.
  - intros k Hk. by rewrite lookup_insert_ne.
Qed.

Lemma C5_fallback_path_witness :
  penv (loadShellEnv (world "darwin" (inl (NonZeroExit 127 "Command failed")) (inr None))
          (state_of [("HOME", "/Users/u"); ("PATH", "/usr/local/bin:/x:/x:/bin")])).1
    !! "PATH"
  = Some "/opt/homebrew/bin:/opt/homebrew/sbin:/usr/local/bin:/usr/local/sbin:/Users/u/.local/bin:/Users/u/.bun/bin:/Users/u/.cargo/bin:/x:/bin"
  ∧ JS.split
      (default ""
         (penv (loadShellEnv (world "darwin" (inl (NonZeroExit 127 "Command failed")) (inr None))
                  (state_of [("HOME", "/Users/u"); ("PATH", "/usr/local/bin:/x:/x:/bin")])).1
            !! "PATH")) ":"
    = [ "/opt/homebrew/bin"; "/opt/homebrew/sbin"; "/usr/local/bin"; "/usr/local/sbin";
        "/Users/u/.local/bin"; "/Users/u/.bun/bin"; "/Users/u/.cargo/bin"; "/x"; "/bin" ].
Proof.
  split.
  - exact (proj1 (C5_fallback_path
      (world "darwin" (inl (NonZeroExit 127 "Command failed")) (inr None))
      (state_of [("HOME", "/Users/u"); ("PATH", "/usr/local/bin:/x:/x:/bin")])
      (NonZeroExit 127 "Command failed") eq_refl eq_refl eq_refl)).
  - exact (proj1 (proj2 (proj2 (C5_fallback_path
      (world "darwin" (inl (NonZeroExit 127 "Command failed")) (inr None))
      (state_of [("HOME", "/Users/u"); ("PATH", "/usr/local/bin:/x:/x:/bin")])
      (NonZeroExit 127 "Command failed") eq_refl eq_refl eq_refl))) eq_refl).
Defined.

(** X13: the fallback is idempotent. If the shell fails again on a second
    call, the PATH written by the first call is written again unchanged:
    the fallback directories are not prepended twice. ([HOME] is taken
    to hold no colon.) *)
Theorem fallback_idempotent w st e :
  platform w = "darwin" →
  JS.truthy (penv st !! "VITE_DEV_SERVER_URL") = false →
  shell_outcome w (penv st) = inl e →
  JS.indexOf (JS.template (penv st !! "HOME")) ":" = (-1)%Z →
  penv (loadShellEnv w (loadShellEnv w st).1).1 = penv (loadShellEnv w st).1.
Proof.
  intros Hplat Hdev Hfail Hhome.
  rewrite !loadShellEnv_env. set (env := penv st) in *.
  rewrite (shell_result_fail w env e) by done.
  set (p1 := fallback_path env). set (env1 := <["PATH" := p1]> env).
  assert (∀ k, k ≠ "PATH" → env1 !! k = env !! k) as Hother.
  { intros k Hk. unfold env1. by rewrite lookup_insert_ne. }
  assert (env1 !! "PATH" = Some p1) as Hpath by apply lookup_insert_eq.
  rewrite (shell_result_fail w env1 e); [|done|by rewrite Hother| ].
  2:{ unfold shell_outcome, shell_of in *. by rewrite !Hother. }
  assert (fallback_path env1 = p1) as ->; [|apply insert_insert_eq].
  rewrite fallback_path_shape, Hpath, Hother by done.
  assert (JS.or_else (Some p1) "/usr/bin:/bin:/usr/sbin:/sbin" = p1) as ->.
  { pose proof (fallback_path_nonempty env) as Hne. fold p1 in Hne.
    unfold JS.or_else. by rewrite Hne. }
  unfold p1 at 1. rewrite fallback_path_shape.
  set (F := fallbackPaths (env !! "HOME")).
  set (R := filter (λ x, x ∉ F)
              (keep_first (JS.split (JS.or_else (env !! "PATH")
                                       "/usr/bin:/bin:/usr/sbin:/sbin") ":"))).
  assert (NoDup (F ++ R)) as Hnodup.
  { apply NoDup_app. split; [apply fallbackPaths_NoDup|]. split.
    - intros x Hx [Hnot _]%list_elem_of_filter. done.
    - apply NoDup_filter, keep_first_NoDup. }
  rewrite split_join.
  - rewrite keep_first_NoDup_id, filter_app by done.
    rewrite (filter_none _ F) by (intros x Hx Hnot; done).
    rewrite filter_all; [unfold p1; by rewrite fallback_path_shape|].
    by intros x [Hnot _]%list_elem_of_filter.
  - unfold F, fallbackPaths. done.
  - apply Forall_app. split; [by apply fallbackPaths_free|].
    apply Forall_forall. intros x [_ Hx]%list_elem_of_filter.
    apply (proj1 (keep_first_elem _ _)) in Hx.
    exact (proj1 (Forall_forall _ _) (split_pieces_free ":" _) x Hx).
Qed.

Lemma fallback_idempotent_witness :
  penv (loadShellEnv (world "darwin" (inl (Timeout "spawnSync /bin/zsh ETIMEDOUT")) (inr None))
          (loadShellEnv (world "darwin" (inl (Timeout "spawnSync /bin/zsh ETIMEDOUT")) (inr None))
             (state_of [("HOME", "/Users/u"); ("PATH", "/usr/bin:/bin")])).1).1
  = penv (loadShellEnv (world "darwin" (inl (Timeout "spawnSync /bin/zsh ETIMEDOUT")) (inr None))
            (state_of [("HOME", "/Users/u"); ("PATH", "/usr/bin:/bin")])).1.
Proof.
  exact (fallback_idempotent
    (world "darwin" (inl (Timeout "spawnSync /bin/zsh ETIMEDOUT")) (inr None))
    (state_of [("HOME", "/Users/u"); ("PATH", "/usr/bin:/bin")])
    (Timeout "spawnSync /bin/zsh ETIMEDOUT") eq_refl eq_refl eq_refl eq_refl).
Defined.

(** ** Well-formed lines of the [.env] file *)








(** * The credentials form *)

Section BedrockForm.
Import Bedrock.

Lemma selectedRegion_listed r :
  r ∈ AWS_REGIONS →
  selectedRegion (id r) = Some r
  ∧ filter (λ r', String.eqb (id r) (id r') = true) AWS_REGIONS = [r].
Proof.
  unfold AWS_REGIONS. rewrite !elem_of_cons, elem_of_nil.
  intros [->|[->|[->|[->|[->|[->|[->|[]]]]]]]]; split; reflexivity.
Qed.

(** X15: whatever the region cell holds, the region shown is defined,
    so reading its name cannot fail: it is the listed region with that
    id, and the first region of the list, us-east-1, for an id that is
    not listed. *)
Theorem selectedRegion_defined region :
  ∃ r, selectedRegion region = Some r
       ∧ r ∈ AWS_REGIONS
       ∧ ((∃ r', r' ∈ AWS_REGIONS ∧ id r' = region) → id r = region)
       ∧ ((∀ r', r' ∈ AWS_REGIONS → id r' ≠ region) →
          r = mkRegion "us-east-1" "US East (N. Virginia)").
Proof.
  unfold selectedRegion.
  destruct (List.find _ AWS_REGIONS) as [r|] eqn:Hfind.
  - apply List.find_some in Hfind as [Hin Hid].
    apply list_elem_of_In in Hin. apply String.eqb_eq in Hid.
    exists r. split; [done|]. split; [done|]. split; [done|].
    intros Hnone. by destruct (Hnone r Hin).
  - exists (mkRegion "us-east-1" "US East (N. Virginia)").
    split; [done|]. split; [by left|]. split; [|done].
    intros (r' & Hin & Hid).
    apply list_elem_of_In in Hin.
    apply (List.find_none _ _ Hfind) in Hin. simpl in Hin.
    apply String.eqb_neq in Hin. done.
Qed.

Lemma selectedRegion_defined_witness :
  ∃ r, selectedRegion "mars-north-1" = Some r
       ∧ r = mkRegion "us-east-1" "US East (N. Virginia)".
Proof.
  destruct (selectedRegion_defined "mars-north-1") as (r & Hsel & _ & _ & Hdefault).
  exists r. split; [exact Hsel|].
  apply Hdefault. apply Forall_forall. compute_done.
Defined.

Lemma step_region_listed form ev :
  (∃ r, r ∈ AWS_REGIONS ∧ id r = form_region form) →
  ∃ r, r ∈ AWS_REGIONS ∧ id r = form_region (step form ev).
Proof.
  intros Hform. destruct ev as [v|v|v| | |i]; simpl; try done.
  destruct (AWS_REGIONS !! i) as [r|] eqn:Hi; [|done].
  exists r. split; [|done]. by apply list_elem_of_lookup_2 in Hi.
Qed.

Lemma foldl_step_region_listed events : ∀ form,
  (∃ r, r ∈ AWS_REGIONS ∧ id r = form_region form) →
  ∃ r, r ∈ AWS_REGIONS ∧ id r = form_region (foldl step form events).
Proof.
  induction events as [|ev events IH]; intros form Hform; [done|].
  simpl. by apply IH, step_region_listed.
Qed.

(** X16: after any sequence of typing, toggling and menu clicks the
    region cell holds the id of a listed region; the region shown is that
    one, never the default standing in for an unknown id, and the check
    mark is on exactly that item of the menu. *)
Theorem region_always_listed events :
  ∃ r, r ∈ AWS_REGIONS
       ∧ id r = form_region (run events)
       ∧ selectedRegion (form_region (run events)) = Some r
       ∧ filter (λ r', checked (run events) r' = true) AWS_REGIONS = [r].
Proof.
  destruct (foldl_step_region_listed events initial) as (r & Hin & Hid).
  { exists (mkRegion "us-east-1" "US East (N. Virginia)"). split; [by left|done]. }
  exists r. fold (run events) in Hid.
  destruct (selectedRegion_listed r Hin) as [Hsel Hcheck].
  unfold checked. rewrite <- Hid. by repeat split.
Qed.

(** X17: what the form submits. The two keys are submitted trimmed,
    the region as selected, and the session token trimmed when something
    is left of it and not at all otherwise: it is never submitted as an
    empty or blank string. *)
Theorem handleSubmit_trims form :
  JS.trim (accessKeyId (handleSubmit form)) = accessKeyId (handleSubmit form)
  ∧ JS.trim (secretAccessKey (handleSubmit form)) = secretAccessKey (handleSubmit form)
  ∧ accessKeyId (handleSubmit form) = JS.trim (form_accessKeyId form)
  ∧ secretAccessKey (handleSubmit form) = JS.trim (form_secretAccessKey form)
  ∧ region (handleSubmit form) = form_region form
  ∧ match sessionToken (handleSubmit form) with
    | None => JS.trim (form_sessionToken form) = ""
    | Some token =>
        token ≠ "" ∧ token = JS.trim (form_sessionToken form) ∧ JS.trim token = token
    end.
Proof.
  unfold handleSubmit; simpl. rewrite !trim_idem. repeat split.
  destruct (JS.trim (form_sessionToken form)) as [|c t] eqn:Htoken; [done|].
  simpl. repeat split; [done|]. by rewrite <- Htoken, trim_idem.
Qed.

End BedrockForm.
